(** * Client-side session / identity lifecycle

    A shallow embedding of the authentication layer of the repository:

    - [hooks/useAuth] (the [useAuth] hook: [loadSession], [signup], [login],
      [logout], [changePassword] and the credential helpers), and
    - [lib/initializeAuth.ts] ([getAdminInfo], [initializeAdminUser]).

    The code is asynchronous TypeScript that threads three pieces of ambient
    state: the browser's [localStorage], the entity collection behind the
    persistence adapter and the React state of the hook.  It is embedded as
    computations in a state-and-exception monad over a record [World] that
    holds exactly that state.  Each [await]ed call is a step of the monad,
    [try]/[catch]/[finally] are combinators of the monad. *)

From Stdlib Require Import ZArith List String Ascii Bool Lia DecimalString.
From Stdlib Require Import Sorted Permutation DecimalZ DecimalPos.
From stdpp Require Import gmap strings.
Import ListNotations.

Open Scope Z_scope.
Open Scope string_scope.

(** ** Data model *)

(** [role: "user" | "admin" | "moderator"] *)
Inductive Role := RoleUser | RoleAdmin | RoleModerator.

(** The [AuthUser] type of the hook.  Optional fields ([sessionToken?],
    [lastLogin?], [profileImage?]) are options; [id: number] is an integer;
    [isActive] is a string, as in the source. *)
Record AuthUser := mkAuthUser {
  id : Z;
  email : string;
  passwordHash : string;
  name : string;
  role : Role;
  sessionToken : option string;
  isActive : string;
  lastLogin : option string;
  profileImage : option string;
  created_at : string;
  updated_at : string
}.

(** [Partial<AuthUser>], the argument of [repo.update]: a field that is
    [None] is not part of the object literal. *)
Record PartialAuthUser := mkPartial {
  p_email : option string;
  p_passwordHash : option string;
  p_name : option string;
  p_role : option Role;
  p_sessionToken : option string;
  p_isActive : option string;
  p_lastLogin : option string;
  p_profileImage : option string
}.

Definition no_fields : PartialAuthUser :=
  mkPartial None None None None None None None None.

(** The value thrown by a failing call: an [Error] with its [message].  An
    empty message is falsy in [err.message || "..."]. *)
Record JsError := mkError { message : string }.

(** The React state of the hook ([useState]). *)
Record HookState := mkHook {
  currentUser : option AuthUser;
  loading : bool;
  hook_error : option string
}.

(** [{ name, email }], the administrator configuration. *)
Record AdminInfo := mkAdminInfo { admin_name : string; admin_email : string }.

(** The configuration read by [getAdminInfo]: the two environment variables
    and the development fallback [window.__SHIPPER_ADMIN__]. *)
Record Env := mkEnv {
  VITE_ADMIN_NAME : option string;
  VITE_ADMIN_EMAIL : option string;
  SHIPPER_ADMIN : option AdminInfo
}.

(** Everything the code reads or writes.
    - [db]: the "AuthUser" collection behind the persistence adapter, in the
      order [list()] returns it;
    - [faults]: the outcomes of the coming adapter calls, one entry per call
      ([Some msg]: the call throws [Error(msg)]; [None] or no entry: it
      returns);
    - [storage]: [localStorage];
    - [clock]: [Date.now()], in milliseconds;
    - [entropy]: how many random UUIDs were drawn so far;
    - [events]: the names of the events passed to [window.dispatchEvent],
      latest first (the listener's reload of the session is a separate run
      of [loadSession]);
    - [hook]: the React state of [useAuth];
    - [env]: the administrator configuration. *)
Record World := mkWorld {
  db : list AuthUser;
  faults : list (option string);
  storage : gmap string string;
  clock : Z;
  entropy : nat;
  events : list string;
  hook : HookState;
  env : Env
}.

Definition set_db (d : list AuthUser) (w : World) : World :=
  mkWorld d (faults w) (storage w) (clock w) (entropy w) (events w) (hook w) (env w).
Definition set_faults (f : list (option string)) (w : World) : World :=
  mkWorld (db w) f (storage w) (clock w) (entropy w) (events w) (hook w) (env w).
Definition set_storage (s : gmap string string) (w : World) : World :=
  mkWorld (db w) (faults w) s (clock w) (entropy w) (events w) (hook w) (env w).
Definition set_entropy (n : nat) (w : World) : World :=
  mkWorld (db w) (faults w) (storage w) (clock w) n (events w) (hook w) (env w).
Definition set_events (e : list string) (w : World) : World :=
  mkWorld (db w) (faults w) (storage w) (clock w) (entropy w) e (hook w) (env w).
Definition set_hook (h : HookState) (w : World) : World :=
  mkWorld (db w) (faults w) (storage w) (clock w) (entropy w) (events w) h (env w).
Definition set_clock (t : Z) (w : World) : World :=
  mkWorld (db w) (faults w) (storage w) t (entropy w) (events w) (hook w) (env w).

(** ** The monad of the embedding *)

Inductive Outcome (A : Type) :=
| Returned (a : A)
| Thrown (e : JsError).
Arguments Returned {A} a.
Arguments Thrown {A} e.

Definition M (A : Type) : Type := World -> Outcome A * World.

Definition ret {A} (a : A) : M A := fun w => (Returned a, w).

Definition bind {A B} (c : M A) (k : A -> M B) : M B :=
  fun w =>
    match c w with
    | (Returned a, w') => k a w'
    | (Thrown e, w') => (Thrown e, w')
    end.

Definition throw {A} (e : JsError) : M A := fun w => (Thrown e, w).

(** [try { c } catch (err) { h err }] *)
Definition try_catch {A} (c : M A) (h : JsError -> M A) : M A :=
  fun w =>
    match c w with
    | (Returned a, w') => (Returned a, w')
    | (Thrown e, w') => h e w'
    end.

(** [try { c } finally { f }]: [f] runs on both exits; the outcome of [c]
    stands unless [f] itself throws. *)
Definition finally {A} (c : M A) (f : M unit) : M A :=
  fun w =>
    match c w with
    | (o, w') =>
        match f w' with
        | (Returned _, w'') => (o, w'')
        | (Thrown e, w'') => (Thrown e, w'')
        end
    end.

Declare Scope js_scope.
Delimit Scope js_scope with js.
Notation "x <- c ;; k" := (bind c (fun x => k))
  (at level 100, c at next level, right associativity) : js_scope.
Notation "c ;; k" := (bind c (fun _ => k))
  (at level 100, right associativity) : js_scope.
Open Scope js_scope.

Definition get {A} (f : World -> A) : M A := fun w => (Returned (f w), w).
Definition modify (f : World -> World) : M unit := fun w => (Returned tt, f w).

(** The final world and the outcome of a run. *)
Definition exec {A} (c : M A) (w : World) : World := snd (c w).
Definition eval {A} (c : M A) (w : World) : Outcome A := fst (c w).

(** ** JavaScript values *)

(** Truthiness of a [string | null | undefined]: absent and empty are falsy. *)
Definition truthy (v : option string) : bool :=
  match v with
  | Some s => negb (String.eqb s "")
  | None => false
  end.

(** [v === t] for a [string | null | undefined] and a string [t]. *)
Definition strict_eq (v : option string) (t : string) : bool :=
  match v with
  | Some s => String.eqb s t
  | None => false
  end.

(** [u.sessionToken === t] *)
Definition token_is (t : string) (u : AuthUser) : bool :=
  strict_eq (sessionToken u) t.

(** [a < b] on two [Date]s: the comparison of their time values, false when
    one of them is an invalid date ([NaN]). *)
Definition Date_lt (a b : option Z) : bool :=
  match a, b with
  | Some x, Some y => (x <? y)%Z
  | _, _ => false
  end.

(** ** localStorage, window and React state *)

(** [localStorage] is a finite map; a write that the browser refuses (a
    full quota) is not modelled.  [window.dispatchEvent] records the event;
    the listeners of the hook are the separate operations
    [handleStorageChange] and [handleCustomStorageChange] below, they are
    not run inside the operation that dispatches. *)

Definition getItem (k : string) : M (option string) :=
  get (fun w => storage w !! k).
Definition setItem (k v : string) : M unit :=
  modify (fun w => set_storage (<[k := v]> (storage w)) w).
Definition removeItem (k : string) : M unit :=
  modify (fun w => set_storage (delete k (storage w)) w).

Definition dispatchEvent (e : string) : M unit :=
  modify (fun w => set_events (e :: events w) w).

Definition Date_now : M Z := get clock.

Definition setCurrentUser (u : option AuthUser) : M unit :=
  modify (fun w => set_hook (mkHook u (loading (hook w)) (hook_error (hook w))) w).
Definition setLoading (b : bool) : M unit :=
  modify (fun w => set_hook (mkHook (currentUser (hook w)) b (hook_error (hook w))) w).
Definition setError (e : option string) : M unit :=
  modify (fun w => set_hook (mkHook (currentUser (hook w)) (loading (hook w)) e) w).

(** [isAuthenticated: !!currentUser] *)
Definition isAuthenticated (w : World) : bool :=
  match currentUser (hook w) with
  | Some _ => true
  | None => false
  end.

(** ** The platform *)

(** The built-in functions of the JavaScript platform that the code calls.
    They are not code of the repository; the development is parametric in
    them. *)
Class Platform := {
  (** [String.prototype.toLowerCase] *)
  toLowerCase : string -> string;
  (** the hexadecimal SHA-256 digest computed by [hashPassword] *)
  sha256_hex : string -> string;
  (** the time value of [new Date(s)]; [None] is the invalid date *)
  Date_parse : string -> option Z;
  (** [new Date(t).toISOString()] *)
  toISOString : Z -> string;
  (** the [n]-th value drawn from [crypto.randomUUID()] *)
  uuid : nat -> string
}.

(** Fields of a new record, the argument of [repo.create]: an [AuthUser]
    without the [id] and the two timestamps. *)
Record AuthUserFields := mkFields {
  f_email : string;
  f_passwordHash : string;
  f_name : string;
  f_role : Role;
  f_sessionToken : option string;
  f_isActive : string;
  f_lastLogin : option string;
  f_profileImage : option string
}.

(** [{ success, error? }], the result of the operations of the hook. *)
Record AuthResult := mkResult { success : bool; error : option string }.

(** [{ success, user?, error? }], the result of [initializeAdminUser]. *)
Record InitResult := mkInit {
  init_success : bool;
  init_user : option AuthUser;
  init_error : option string
}.

(** [m || d] on strings. *)
Definition or_else (m d : string) : string :=
  if String.eqb m "" then d else m.

(** [String(v)], the coercion [localStorage.setItem] applies to its value. *)
Definition String_of (v : option string) : string :=
  match v with
  | Some s => s
  | None => "undefined"
  end.

Definition ok : AuthResult := mkResult true None.
Definition failed (msg : string) : AuthResult := mkResult false (Some msg).

(** ** The persistence adapter *)

(** Modelled from the spec: [createFlexibleRepository] (module
    [repositories/flexibleEntityRepository]) is not among the sources.  The
    spec gives it four operations over a named collection, [list() ->
    sequence of record], [create(fields) -> record] (assigns id and
    timestamps), [get(id) -> record|absent] and [update(id, partialFields) ->
    void], whose errors surface as a generic failure.  Every operation is one
    adapter call: it takes the next entry of [faults] and throws when that
    entry is a failure. *)
Definition adapter_call : M unit :=
  fun w =>
    match faults w with
    | [] => (Returned tt, w)
    | None :: rest => (Returned tt, set_faults rest w)
    | Some msg :: rest => (Thrown (mkError msg), set_faults rest w)
    end.

(** Modelled from the spec: the fields of a partial record overwrite those of
    the stored record, the others stay. *)
Definition apply_partial (p : PartialAuthUser) (u : AuthUser) : AuthUser :=
  {| id := id u;
     email := default (email u) (p_email p);
     passwordHash := default (passwordHash u) (p_passwordHash p);
     name := default (name u) (p_name p);
     role := default (role u) (p_role p);
     sessionToken :=
       match p_sessionToken p with Some t => Some t | None => sessionToken u end;
     isActive := default (isActive u) (p_isActive p);
     lastLogin :=
       match p_lastLogin p with Some t => Some t | None => lastLogin u end;
     profileImage :=
       match p_profileImage p with Some t => Some t | None => profileImage u end;
     created_at := created_at u;
     updated_at := updated_at u |}.

(** Modelled from the spec: an id no stored record has (ids are unique). *)
Definition fresh_id (d : list AuthUser) : Z :=
  1 + fold_right Z.max 0 (map id d).

Definition update_in (i : Z) (p : PartialAuthUser) (d : list AuthUser)
  : list AuthUser :=
  map (fun u => if (id u =? i)%Z then apply_partial p u else u) d.

Section Auth.
Context `{Platform}.

(** Modelled from the spec: [repo.list()]. *)
Definition repo_list : M (list AuthUser) :=
  adapter_call ;; get db.

(** Modelled from the spec: [repo.create(fields)], which assigns the id and
    the timestamps and stores the record after the existing ones. *)
Definition repo_create (f : AuthUserFields) : M AuthUser :=
  adapter_call ;;
  now <- Date_now ;;
  d <- get db ;;
  let u := {| id := fresh_id d;
              email := f_email f;
              passwordHash := f_passwordHash f;
              name := f_name f;
              role := f_role f;
              sessionToken := f_sessionToken f;
              isActive := f_isActive f;
              lastLogin := f_lastLogin f;
              profileImage := f_profileImage f;
              created_at := toISOString now;
              updated_at := toISOString now |} in
  modify (set_db (d ++ [u])) ;;
  ret u.

(** Modelled from the spec: [repo.get(id)]. *)
Definition repo_get (i : Z) : M (option AuthUser) :=
  adapter_call ;;
  d <- get db ;;
  ret (find (fun u => (id u =? i)%Z) d).

(** Modelled from the spec: [repo.update(id, partialFields)]. *)
Definition repo_update (i : Z) (p : PartialAuthUser) : M unit :=
  adapter_call ;;
  modify (fun w => set_db (update_in i p (db w)) w).

(** ** Credential utility (hooks/useAuth) *)

Definition hashPassword (password : string) : M string :=
  ret (sha256_hex password).

Definition generateSessionToken : M string :=
  fun w => (Returned (uuid (entropy w)), set_entropy (S (entropy w)) w).

Definition SESSION_EXPIRY_MS : Z := 30 * 24 * 60 * 60 * 1000.

Definition getSessionExpiry : M string :=
  now <- Date_now ;;
  ret (toISOString (now + SESSION_EXPIRY_MS)).

Definition isSessionExpired (expiryTimestamp : option string) : M bool :=
  match expiryTimestamp with
  | None => ret true
  | Some s =>
      if String.eqb s "" then ret true
      else
        now <- Date_now ;;
        ret (Date_lt (Date_parse s) (Some now))
  end.

(** [u.email.toLowerCase() === email.toLowerCase()] *)
Definition same_email (email0 : string) (u : AuthUser) : bool :=
  String.eqb (toLowerCase (email u)) (toLowerCase email0).

(** ** The hook [useAuth] *)

(** [loadSession], the bootstrap run on mount and on every session
    notification. *)
Definition loadSession : M unit :=
  setLoading true ;;
  finally
    (try_catch
       (sessionToken0 <- getItem "auth_session_token" ;;
        sessionExpiry <- getItem "auth_session_expiry" ;;
        expired <- (if truthy sessionExpiry
                    then isSessionExpired sessionExpiry
                    else ret false) ;;
        if (expired : bool) then
          removeItem "auth_session_token" ;;
          removeItem "auth_session_expiry" ;;
          setCurrentUser None
        else
          match sessionToken0 with
          | Some t =>
              if String.eqb t "" then setCurrentUser None
              else
                allUsers <- repo_list ;;
                match find (token_is t) allUsers with
                | Some user => setCurrentUser (Some user)
                | None =>
                    removeItem "auth_session_token" ;;
                    removeItem "auth_session_expiry" ;;
                    setCurrentUser None
                end
          | None => setCurrentUser None
          end)
       (fun err => setError (Some "Failed to load session")))
    (setLoading false).

Definition signup (email0 password name0 : string) (role0 : option Role)
  : M AuthResult :=
  let role1 := default RoleUser role0 in
  setLoading true ;;
  setError None ;;
  finally
    (try_catch
       (allUsers <- repo_list ;;
        match find (same_email email0) allUsers with
        | Some existingUser =>
            let errorMsg := "User with this email already exists" in
            setError (Some errorMsg) ;;
            setLoading false ;;
            ret (failed errorMsg)
        | None =>
            passwordHash0 <- hashPassword password ;;
            sessionToken0 <- generateSessionToken ;;
            sessionExpiry <- getSessionExpiry ;;
            recheckUsers <- repo_list ;;
            match find (same_email email0) recheckUsers with
            | Some recheckExisting =>
                let errorMsg := "User with this email already exists" in
                setError (Some errorMsg) ;;
                setLoading false ;;
                ret (failed errorMsg)
            | None =>
                now <- Date_now ;;
                newUser <- repo_create
                  {| f_email := toLowerCase email0;
                     f_passwordHash := passwordHash0;
                     f_name := name0;
                     f_role := role1;
                     f_sessionToken := Some sessionToken0;
                     f_isActive := "true";
                     f_lastLogin := Some (toISOString now);
                     f_profileImage := None |} ;;
                setItem "auth_session_token" sessionToken0 ;;
                setItem "auth_session_expiry" sessionExpiry ;;
                dispatchEvent "auth_session_updated" ;;
                setCurrentUser (Some newUser) ;;
                ret ok
            end
        end)
       (fun err =>
          let errorMsg := or_else (message err) "Failed to create account" in
          setError (Some errorMsg) ;;
          ret (failed errorMsg)))
    (setLoading false).

Definition login (email0 password : string) : M AuthResult :=
  setLoading true ;;
  setError None ;;
  finally
    (try_catch
       (allUsers <- repo_list ;;
        match find (same_email email0) allUsers with
        | None =>
            setError (Some "Invalid email or password") ;;
            ret (failed "Invalid email or password")
        | Some user =>
            if negb (String.eqb (isActive user) "true") then
              setError (Some "Account is deactivated") ;;
              ret (failed "Account is deactivated")
            else
              passwordHash0 <- hashPassword password ;;
              if negb (String.eqb (passwordHash user) passwordHash0) then
                setError (Some "Invalid email or password") ;;
                ret (failed "Invalid email or password")
              else
                sessionToken0 <- generateSessionToken ;;
                sessionExpiry <- getSessionExpiry ;;
                now <- Date_now ;;
                repo_update (id user)
                  {| p_email := None; p_passwordHash := None; p_name := None;
                     p_role := None;
                     p_sessionToken := Some sessionToken0;
                     p_isActive := None;
                     p_lastLogin := Some (toISOString now);
                     p_profileImage := None |} ;;
                setItem "auth_session_token" sessionToken0 ;;
                setItem "auth_session_expiry" sessionExpiry ;;
                dispatchEvent "auth_session_updated" ;;
                updatedUser <- repo_get (id user) ;;
                match updatedUser with
                | Some u' => setCurrentUser (Some u')
                | None => ret tt
                end ;;
                ret ok
        end)
       (fun err =>
          let errorMsg := or_else (message err) "Failed to log in" in
          setError (Some errorMsg) ;;
          ret (failed errorMsg)))
    (setLoading false).

(** [logout]: [currentUser] is the value the callback closed over; the
    [catch] only logs. *)
Definition logout : M unit :=
  cu <- get (fun w => currentUser (hook w)) ;;
  finally
    (try_catch
       match cu with
       | Some u =>
           repo_update (id u)
             {| p_email := None; p_passwordHash := None; p_name := None;
                p_role := None;
                p_sessionToken := Some "";
                p_isActive := None; p_lastLogin := None;
                p_profileImage := None |}
       | None => ret tt
       end
       (fun err => ret tt))
    (removeItem "auth_session_token" ;;
     removeItem "auth_session_expiry" ;;
     setCurrentUser None ;;
     setError None).

(** [updateProfile]: after the update the record is fetched again and the
    hook is settled on it. *)
Definition updateProfile (updates : PartialAuthUser) : M AuthResult :=
  cu <- get (fun w => currentUser (hook w)) ;;
  match cu with
  | None => ret (failed "No user logged in")
  | Some u =>
      setLoading true ;;
      setError None ;;
      finally
        (try_catch
           (repo_update (id u) updates ;;
            updatedUser <- repo_get (id u) ;;
            match updatedUser with
            | Some u' => setCurrentUser (Some u')
            | None => ret tt
            end ;;
            ret ok)
           (fun err =>
              let errorMsg := or_else (message err) "Failed to update profile" in
              setError (Some errorMsg) ;;
              ret (failed errorMsg)))
        (setLoading false)
  end.

(** [changePassword]: the current password is checked against the record
    the hook holds; after the update the hook is not settled again. *)
Definition changePassword (currentPassword newPassword : string)
  : M AuthResult :=
  cu <- get (fun w => currentUser (hook w)) ;;
  match cu with
  | None => ret (failed "No user logged in")
  | Some u =>
      setLoading true ;;
      setError None ;;
      finally
        (try_catch
           (currentHash <- hashPassword currentPassword ;;
            if negb (String.eqb (passwordHash u) currentHash) then
              setError (Some "Current password is incorrect") ;;
              ret (failed "Current password is incorrect")
            else
              newHash <- hashPassword newPassword ;;
              repo_update (id u)
                {| p_email := None; p_passwordHash := Some newHash;
                   p_name := None; p_role := None; p_sessionToken := None;
                   p_isActive := None; p_lastLogin := None;
                   p_profileImage := None |} ;;
              ret ok)
           (fun err =>
              let errorMsg := or_else (message err) "Failed to change password" in
              setError (Some errorMsg) ;;
              ret (failed errorMsg)))
        (setLoading false)
  end.

(** ** Auto-provisioning (lib/initializeAuth.ts) *)

Definition ADMIN_INITIALIZED_KEY : string := "shipper_admin_initialized".
Definition AUTH_SESSION_TOKEN : string := "auth_session_token".

(** [getAdminInfo]: both environment variables, else the fallback of the
    window object, else [null]. *)
Definition getAdminInfo (e : Env) : option AdminInfo :=
  match VITE_ADMIN_NAME e, VITE_ADMIN_EMAIL e with
  | Some n, Some m =>
      if negb (String.eqb n "") && negb (String.eqb m "")
      then Some (mkAdminInfo n m)
      else SHIPPER_ADMIN e
  | _, _ => SHIPPER_ADMIN e
  end.

(** [adminUser.sessionToken = sessionToken], on the record [list()] gave. *)
Definition with_sessionToken (u : AuthUser) (t : string) : AuthUser :=
  {| id := id u; email := email u; passwordHash := passwordHash u;
     name := name u; role := role u; sessionToken := Some t;
     isActive := isActive u; lastLogin := lastLogin u;
     profileImage := profileImage u; created_at := created_at u;
     updated_at := updated_at u |}.

Definition initializeAdminUser : M InitResult :=
  try_catch
    (alreadyInitialized <- getItem ADMIN_INITIALIZED_KEY ;;
     if strict_eq alreadyInitialized "true" then ret (mkInit true None None)
     else
         e <- get env ;;
         match getAdminInfo e with
         | None => ret (mkInit true None None)
         | Some adminInfo =>
             let normalizedEmail := toLowerCase (admin_email adminInfo) in
             allUsers <- repo_list ;;
             match find (fun u => String.eqb (toLowerCase (email u)) normalizedEmail)
                        allUsers with
             | None => ret (mkInit true None None)
             | Some adminUser =>
                 adminUser1 <-
                   (if negb (truthy (sessionToken adminUser)) then
                      sessionToken0 <- generateSessionToken ;;
                      now <- Date_now ;;
                      repo_update (id adminUser)
                        {| p_email := None; p_passwordHash := None;
                           p_name := None; p_role := None;
                           p_sessionToken := Some sessionToken0;
                           p_isActive := None;
                           p_lastLogin := Some (toISOString now);
                           p_profileImage := None |} ;;
                      ret (with_sessionToken adminUser sessionToken0)
                    else ret adminUser) ;;
                 now <- Date_now ;;
                 let sessionExpiry :=
                   toISOString (now + 30 * 24 * 60 * 60 * 1000) in
                 setItem AUTH_SESSION_TOKEN (String_of (sessionToken adminUser1)) ;;
                 setItem "auth_session_expiry" sessionExpiry ;;
                 setItem ADMIN_INITIALIZED_KEY "true" ;;
                 dispatchEvent "auth_session_updated" ;;
                 ret (mkInit true (Some adminUser1) None)
             end
         end)
    (fun err =>
       (* the thrown value is an Error: its message is returned *)
       ret (mkInit false None (Some (message err)))).

(** [handleStorageChange], the listener of the "storage" event: [key] is
    [e.key], which is [null] when the whole storage was cleared. *)
Definition handleStorageChange (key : option string) : M unit :=
  if strict_eq key "auth_session_token" || strict_eq key "auth_session_expiry"
  then loadSession
  else ret tt.

(** [handleCustomStorageChange], the listener of "auth_session_updated". *)
Definition handleCustomStorageChange : M unit := loadSession.

(** [hasAdminAutoLogin]: [getAdminInfo() !== null]. *)
Definition hasAdminAutoLogin : M bool :=
  e <- get env ;;
  ret (match getAdminInfo e with Some _ => true | None => false end).

(** [getConfiguredAdminInfo] *)
Definition getConfiguredAdminInfo : M (option AdminInfo) :=
  e <- get env ;;
  ret (getAdminInfo e).

(** [resetAdminInitialization] (the log line is not modelled). *)
Definition resetAdminInitialization : M unit :=
  removeItem ADMIN_INITIALIZED_KEY.

(** The effect of [AuthProvider] (lib/AuthContext): the initializer runs
    when auto-login is configured; its result and its rejection are only
    logged. *)
Definition AuthProvider_effect : M unit :=
  hasAutoLogin <- hasAdminAutoLogin ;;
  if (hasAutoLogin : bool) then
    try_catch (result <- initializeAdminUser ;; ret tt) (fun err => ret tt)
  else ret tt.

End Auth.

(** ** The task list (the [App] component and [FilterBar]) *)

(** The state of the [App] component and the handlers it passes to its
    children.  The module [types/todo] is not among the sources: the record
    [Todo] has the fields of the object [addTodo] builds, [Priority] and
    [FilterStatus] the values [FilterBar] offers.  [useLocalStorage] is used
    as a state hook: [todos] is the stored value, [setTodos] replaces it. *)
Module TodoApp.

Inductive Priority := low | medium | high.

(** ['all' | 'active' | 'completed']; the last is [completedOnly] here,
    [completed] being a field of [Todo]. *)
Inductive FilterStatus := all | active | completedOnly.

Record Todo := mkTodo {
  id : string;
  title : string;
  description : string;
  dueDate : string;
  priority : Priority;
  completed : bool;
  createdAt : string;
  order : Z
}.

(** [Partial<Todo>] *)
Record PartialTodo := mkPartialTodo {
  u_id : option string;
  u_title : option string;
  u_description : option string;
  u_dueDate : option string;
  u_priority : option Priority;
  u_completed : option bool;
  u_createdAt : option string;
  u_order : option Z
}.

(** The argument of [addTodo]. *)
Record NewTodo := mkNewTodo {
  n_title : string;
  n_description : string;
  n_dueDate : string;
  n_priority : Priority
}.

(** [TodoFilters]; the priority filter is [None] for 'all'. *)
Record TodoFilters := mkFilters {
  status : FilterStatus;
  priorityFilter : option Priority;
  search : string
}.

(** The state of [App]: the three pieces of React state, and the clock and
    random source [addTodo] reads. *)
Record App := mkApp {
  todos : list Todo;
  filters : TodoFilters;
  selectedIds : gset string;
  app_clock : Z;
  app_entropy : nat
}.

(** The initial state: no todos, [{status: 'all', priority: 'all', search:
    ''}], nothing selected. *)
Definition initial (t : Z) : App :=
  mkApp [] (mkFilters all None "") ∅ t 0.

Definition setTodos (l : list Todo) (s : App) : App :=
  mkApp l (filters s) (selectedIds s) (app_clock s) (app_entropy s).
Definition setSelectedIds (ids : gset string) (s : App) : App :=
  mkApp (todos s) (filters s) ids (app_clock s) (app_entropy s).
Definition setFilters (f : TodoFilters) (s : App) : App :=
  mkApp (todos s) f (selectedIds s) (app_clock s) (app_entropy s).

Definition Priority_eqb (a b : Priority) : bool :=
  match a, b with
  | low, low | medium, medium | high, high => true
  | _, _ => false
  end.

(** [{ ...todo, ...updates }] *)
Definition spread (t : Todo) (u : PartialTodo) : Todo :=
  {| id := default (id t) (u_id u);
     title := default (title t) (u_title u);
     description := default (description t) (u_description u);
     dueDate := default (dueDate t) (u_dueDate u);
     priority := default (priority t) (u_priority u);
     completed := default (completed t) (u_completed u);
     createdAt := default (createdAt t) (u_createdAt u);
     order := default (order t) (u_order u) |}.

(** [{ ...todo, completed: true }] *)
Definition complete (t : Todo) : Todo :=
  {| id := id t; title := title t; description := description t;
     dueDate := dueDate t; priority := priority t; completed := true;
     createdAt := createdAt t; order := order t |}.

(** [s.includes(sub)] *)
Fixpoint includes (s sub : string) : bool :=
  String.prefix sub s ||
  match s with
  | EmptyString => false
  | String _ r => includes r sub
  end.

(** [l.sort((a, b) => a.order - b.order)]: the sort of the platform is
    stable, so its result is the one insertion in order of appearance
    gives. *)
Fixpoint insert_by_order (t : Todo) (l : list Todo) : list Todo :=
  match l with
  | [] => [t]
  | x :: r =>
      if (order t <=? order x)%Z then t :: x :: r
      else x :: insert_by_order t r
  end.

Definition sort_by_order (l : list Todo) : list Todo :=
  fold_right insert_by_order [] l.

(** Every selected id is the id of a todo of the list. *)
Definition selection_valid (s : App) : Prop :=
  forall i, i ∈ selectedIds s -> exists t, In t (todos s) /\ id t = i.

(** The order the view sorts by. *)
Definition by_order (a b : Todo) : Prop := (order a <= order b)%Z.

(** [{ completed: true }] as a [Partial<Todo>]. *)
Definition mark_completed : PartialTodo :=
  mkPartialTodo None None None None None (Some true) None None.

Section Handlers.
Context `{Platform}.

Definition addTodo (newTodo : NewTodo) (s : App) : App :=
  let todo := {| id := uuid (app_entropy s);
                 title := n_title newTodo;
                 description := n_description newTodo;
                 dueDate := n_dueDate newTodo;
                 priority := n_priority newTodo;
                 completed := false;
                 createdAt := toISOString (app_clock s);
                 order := Z.of_nat (length (todos s)) |} in
  mkApp (todos s ++ [todo]) (filters s) (selectedIds s) (app_clock s)
    (S (app_entropy s)).

Definition updateTodo (i : string) (updates : PartialTodo) (s : App) : App :=
  setTodos (map (fun todo => if String.eqb (id todo) i
                             then spread todo updates else todo) (todos s)) s.

Definition deleteTodo (i : string) (s : App) : App :=
  setSelectedIds (selectedIds s ∖ {[i]})
    (setTodos (List.filter (fun todo => negb (String.eqb (id todo) i)) (todos s)) s).

Definition reorderTodos (reorderedTodos : list Todo) (s : App) : App :=
  setTodos reorderedTodos s.

Definition handleSelect (i : string) (selected : bool) (s : App) : App :=
  setSelectedIds (if selected then {[i]} ∪ selectedIds s
                  else selectedIds s ∖ {[i]}) s.

Definition handleBulkComplete (s : App) : App :=
  setSelectedIds ∅
    (setTodos (map (fun todo => if bool_decide (id todo ∈ selectedIds s)
                                then complete todo else todo) (todos s)) s).

Definition handleBulkDelete (s : App) : App :=
  setSelectedIds ∅
    (setTodos (List.filter (fun todo => negb (bool_decide (id todo ∈ selectedIds s)))
                 (todos s)) s).

(** [onClearSelection] *)
Definition clearSelection (s : App) : App := setSelectedIds ∅ s.

(** The predicate of the filter in [filteredTodos]. *)
Definition visible (f : TodoFilters) (todo : Todo) : bool :=
  if (match status f with active => true | _ => false end) && completed todo
  then false
  else if (match status f with completedOnly => true | _ => false end)
          && negb (completed todo)
  then false
  else if (match priorityFilter f with
           | Some p => negb (Priority_eqb (priority todo) p)
           | None => false
           end)
  then false
  else if negb (String.eqb (search f) "") then
    let search0 := toLowerCase (search f) in
    includes (toLowerCase (title todo)) search0 ||
    includes (toLowerCase (description todo)) search0
  else true.

Definition filteredTodos (s : App) : list Todo :=
  sort_by_order (List.filter (visible (filters s)) (todos s)).

(** The handlers of [FilterBar]. *)
Definition onSearchChange (value : string) (s : App) : App :=
  setFilters (mkFilters (status (filters s)) (priorityFilter (filters s)) value) s.

Definition onStatusClick (value : FilterStatus) (s : App) : App :=
  setFilters (mkFilters value (priorityFilter (filters s)) (search (filters s))) s.

Definition onPriorityClick (value : option Priority) (s : App) : App :=
  setFilters (mkFilters (status (filters s)) value (search (filters s))) s.

End Handlers.

End TodoApp.

(** ** A platform to run the model on *)

(** A small instance of [Platform], used to evaluate the operations on
    concrete worlds: lowercasing of the letters A-Z, timestamps written as
    decimal milliseconds, and stand-ins for the digest and the random
    source. *)
Module Reference.

Definition lower_ascii (c : ascii) : ascii :=
  let n := nat_of_ascii c in
  if (65 <=? n)%nat && (n <=? 90)%nat then ascii_of_nat (n + 32) else c.

Fixpoint lower (s : string) : string :=
  match s with
  | EmptyString => EmptyString
  | String c r => String (lower_ascii c) (lower r)
  end.

Definition parse_ms (s : string) : option Z :=
  option_map Z.of_int (NilZero.int_of_string s).

Definition print_ms (t : Z) : string :=
  NilZero.string_of_int (Z.to_int t).

Definition digest (s : string) : string := "sha256:" ++ s.

Definition token (n : nat) : string :=
  "uuid-" ++ NilZero.string_of_int (Z.to_int (Z.of_nat n)).

#[export] Instance platform : Platform :=
  {| toLowerCase := lower;
     sha256_hex := digest;
     Date_parse := parse_ms;
     toISOString := print_ms;
     uuid := token |}.

Definition no_env : Env := mkEnv None None None.

Definition idle : HookState := mkHook None false None.

(** An identity as [signup] stores it. *)
Definition alice : AuthUser :=
  {| id := 1; email := "a@x.com"; passwordHash := digest "pw";
     name := "A"; role := RoleUser; sessionToken := Some "tok-a";
     isActive := "true"; lastLogin := Some "1000"; profileImage := None;
     created_at := "1000"; updated_at := "1000" |}.

(** A deactivated identity. *)
Definition bob : AuthUser :=
  {| id := 2; email := "b@x.com"; passwordHash := digest "secret";
     name := "B"; role := RoleUser; sessionToken := Some "tok-b";
     isActive := "false"; lastLogin := None; profileImage := None;
     created_at := "1000"; updated_at := "1000" |}.

(** The administrator the server created, logged out (no session token). *)
Definition root : AuthUser :=
  {| id := 3; email := "Root@x.com"; passwordHash := digest "toor";
     name := "Root"; role := RoleAdmin; sessionToken := Some "";
     isActive := "true"; lastLogin := None; profileImage := None;
     created_at := "1000"; updated_at := "1000" |}.

Definition session (tok expiry : string) : gmap string string :=
  <["auth_session_expiry" := expiry]> (<["auth_session_token" := tok]> ∅).

(** A world with the given identities, session store and current user, at
    time 1000, with an adapter that does not fail. *)
Definition world (d : list AuthUser) (s : gmap string string)
    (cu : option AuthUser) : World :=
  mkWorld d [] s 1000 0 [] (mkHook cu false None) no_env.

(** The session store holds a session of alice that expired at time 500. *)
Definition expired_world : World := world [alice; bob] (session "tok-a" "500") None.

(** The session store holds a token that no identity has. *)
Definition orphan_world : World := world [alice; bob] (session "tok-zz" "5000") None.

(** The session store holds the token of alice and no expiry. *)
Definition open_world : World :=
  world [alice; bob] (<["auth_session_token" := "tok-a"]> ∅) None.

(** The token entry of the session store is the empty string. *)
Definition blank_world : World :=
  world [alice; bob] (<["auth_session_token" := ""]> ∅) None.

(** Nobody is logged in. *)
Definition fresh_world : World := world [alice; bob] ∅ None.

(** No identity is stored. *)
Definition empty_world : World := world [] ∅ None.

(** alice is logged in. *)
Definition alice_world : World :=
  world [alice; bob] (session "tok-a" "5000") (Some alice).

(** bob, deactivated, is the current user (as [loadSession] settles it from
    his stored token). *)
Definition bob_world : World :=
  world [alice; bob] (session "tok-b" "5000") (Some bob).

(** alice is logged in and the adapter fails on the next call. *)
Definition failing_world : World :=
  mkWorld [alice; bob] [Some "repository error"] (session "tok-a" "5000")
    1000 0 [] (mkHook (Some alice) false None) no_env.

(** The administrator is configured, stored and not yet logged in. *)
Definition admin_world : World :=
  mkWorld [alice; root] [] ∅ 1000 0 [] idle
    (mkEnv (Some "Root") (Some "root@x.com") None).

(** The adapter answers one call and fails on the second. *)
Definition half_failing_world : World :=
  mkWorld [alice; bob] [None; Some "repository error"] ∅ 1000 0 []
    idle no_env.

(** The administrator is configured and the adapter answers one call and
    fails on the second. *)
Definition admin_half_failing_world : World :=
  mkWorld [alice; root] [None; Some "repository error"] ∅ 1000 0 [] idle
    (mkEnv (Some "Root") (Some "root@x.com") None).

(** The administrator is configured and the adapter fails. *)
Definition admin_failing_world : World :=
  mkWorld [alice; root] [Some "repository error"] ∅ 1000 0 [] idle
    (mkEnv (Some "Root") (Some "root@x.com") None).

(** alice is the current user and the session store is empty (another tab
    logged out). *)
Definition orphaned_tab : World := world [alice; bob] ∅ (Some alice).

(** alice holds a valid session and the hook has not loaded it yet. *)
Definition returning_world : World :=
  world [alice; bob] (session "tok-a" "5000") None.

(** Three todos. *)
Definition report : TodoApp.Todo :=
  TodoApp.mkTodo "t1" "Write Report" "quarterly numbers" "" TodoApp.high
    false "1000" 0.
Definition milk : TodoApp.Todo :=
  TodoApp.mkTodo "t2" "Buy milk" "" "" TodoApp.low true "1000" 1.
Definition call : TodoApp.Todo :=
  TodoApp.mkTodo "t3" "Call Ann" "about the report" "" TodoApp.medium
    false "1000" 2.

(** The three todos, no filter, the first one selected. *)
Definition desk : TodoApp.App :=
  TodoApp.mkApp [report; milk; call]
    (TodoApp.mkFilters TodoApp.all None "") {["t1"]} 1000 3.

(** The three todos, no filter, nothing selected. *)
Definition clean_desk : TodoApp.App :=
  TodoApp.mkApp [report; milk; call]
    (TodoApp.mkFilters TodoApp.all None "") ∅ 1000 3.

End Reference.

(** ** Reasoning about runs *)

(** The adapter does not fail: no coming call is scheduled to throw. *)
Definition healthy (w : World) : Prop :=
  Forall (fun f => f = None) (faults w).

(** The world after one adapter call that returned. *)
Definition tick (w : World) : World := set_faults (tl (faults w)) w.

(** The world [loadSession] leaves when it purges the session. *)
Definition purged (w : World) : World :=
  set_hook (mkHook None false (hook_error (hook w)))
    (set_storage (delete "auth_session_expiry"
                    (delete "auth_session_token" (storage w))) w).

(** The world [loadSession] leaves when it settles on [u]. *)
Definition settled (u : option AuthUser) (w : World) : World :=
  set_hook (mkHook u false (hook_error (hook w))) w.

(** The world an operation of the hook leaves when it reports [msg] after
    its first adapter call. *)
Definition rejected (msg : string) (w : World) : World :=
  set_hook (mkHook (currentUser (hook w)) false (Some msg)) (tick w).

(** The data-model invariant on emails: no two identities have the same
    email up to letter case. *)
Definition unique_emails `{Platform} (d : list AuthUser) : Prop :=
  List.NoDup (map (fun u => toLowerCase (email u)) d).

(** The value of [sessionExpiry && isSessionExpired(sessionExpiry)] in
    [loadSession]: the expiry entry is a non-empty string that denotes a
    time before the current time. *)
Definition stale `{Platform} (w : World) : bool :=
  match storage w !! "auth_session_expiry" with
  | Some s => negb (String.eqb s "") && Date_lt (Date_parse s) (Some (clock w))
  | None => false
  end.

(** [u] with the password digest [h]. *)
Definition with_passwordHash (u : AuthUser) (h : string) : AuthUser :=
  {| id := id u; email := email u; passwordHash := h;
     name := name u; role := role u; sessionToken := sessionToken u;
     isActive := isActive u; lastLogin := lastLogin u;
     profileImage := profileImage u; created_at := created_at u;
     updated_at := updated_at u |}.

(** [{ sessionToken, lastLogin }], the fields [login] and
    [initializeAdminUser] write to an identity. *)
Definition session_fields (tok last : string) : PartialAuthUser :=
  mkPartial None None None None (Some tok) None (Some last) None.

(** A [Partial<Pick<AuthUser, "name" | "profileImage">>], the argument
    [updateProfile] is typed with. *)
Definition profile_fields (n img : option string) : PartialAuthUser :=
  mkPartial None None n None None None None img.

(** [{ sessionToken: "" }], the field [logout] writes. *)
Definition cleared_session : PartialAuthUser :=
  mkPartial None None None None (Some "") None None None.

(** [{ passwordHash }], the field [changePassword] writes. *)
Definition password_fields (h : string) : PartialAuthUser :=
  mkPartial None (Some h) None None None None None None.

(** The world a successful [login] as [u] leaves: three adapter calls
    ([list], [update], [get]), one token drawn, the identity updated, the
    session store written, the notification dispatched and the hook settled
    on the refreshed record. *)
Definition logged_in `{Platform} (u : AuthUser) (w : World) : World :=
  let tok := uuid (entropy w) in
  let d := update_in (id u) (session_fields tok (toISOString (clock w))) (db w) in
  mkWorld d (tl (tl (tl (faults w))))
    (<["auth_session_expiry" := toISOString (clock w + SESSION_EXPIRY_MS)]>
       (<["auth_session_token" := tok]> (storage w)))
    (clock w) (S (entropy w)) ("auth_session_updated" :: events w)
    (mkHook (match find (fun v => (id v =? id u)%Z) d with
             | Some u' => Some u'
             | None => currentUser (hook w)
             end) false None)
    (env w).

(** The record [signup] creates. *)
Definition new_identity `{Platform} (email0 password name0 : string)
    (role0 : option Role) (w : World) : AuthUser :=
  {| id := fresh_id (db w);
     email := toLowerCase email0;
     passwordHash := sha256_hex password;
     name := name0;
     role := default RoleUser role0;
     sessionToken := Some (uuid (entropy w));
     isActive := "true";
     lastLogin := Some (toISOString (clock w));
     profileImage := None;
     created_at := toISOString (clock w);
     updated_at := toISOString (clock w) |}.

(** The world a successful [signup] leaves: three adapter calls ([list],
    [list], [create]), one token drawn, the record stored, the session
    store written, the notification dispatched and the hook settled on the
    new record. *)
Definition signed_up `{Platform} (email0 password name0 : string)
    (role0 : option Role) (w : World) : World :=
  mkWorld (db w ++ [new_identity email0 password name0 role0 w])
    (tl (tl (tl (faults w))))
    (<["auth_session_expiry" := toISOString (clock w + SESSION_EXPIRY_MS)]>
       (<["auth_session_token" := uuid (entropy w)]> (storage w)))
    (clock w) (S (entropy w)) ("auth_session_updated" :: events w)
    (mkHook (Some (new_identity email0 password name0 role0 w)) false None)
    (env w).

(** The token [initializeAdminUser] logs the matched identity in with: its
    own when it has one, else the next random token. *)
Definition admin_token `{Platform} (u : AuthUser) (w : World) : string :=
  if truthy (sessionToken u) then String_of (sessionToken u)
  else uuid (entropy w).

Ltac still_healthy :=
  unfold healthy in *; simpl; repeat apply Forall_tail; assumption.

Ltac run_monad :=
  unfold finally, try_catch, bind, getItem, setItem, removeItem, dispatchEvent,
    setLoading, setError, setCurrentUser, Date_now, hashPassword,
    generateSessionToken, getSessionExpiry, get, modify, ret;
  simpl.

Lemma adapter_call_healthy (w : World) :
  healthy w -> adapter_call w = (Returned tt, tick w).
Proof.
  unfold healthy, adapter_call, tick. destruct w as [d f s c n e h v]; simpl.
  intros Hf. destruct f as [|[m|] f]; simpl; try reflexivity.
  inversion Hf; subst. discriminate.
Qed.

Lemma healthy_tick (w : World) : healthy w -> healthy (tick w).
Proof.
  unfold healthy, tick; simpl. intros Hf.
  destruct (faults w); simpl; [constructor | now inversion Hf].
Qed.

Section Runs.
Context `{Platform}.

Lemma repo_list_healthy (w : World) :
  healthy w -> repo_list w = (Returned (db w), tick w).
Proof.
  intros Hw. unfold repo_list, bind, get. now rewrite adapter_call_healthy.
Qed.

Lemma repo_get_healthy (i : Z) (w : World) :
  healthy w ->
  repo_get i w = (Returned (find (fun u => (id u =? i)%Z) (db w)), tick w).
Proof.
  intros Hw. unfold repo_get, bind, get, ret. now rewrite adapter_call_healthy.
Qed.

Lemma repo_update_healthy (i : Z) (p : PartialAuthUser) (w : World) :
  healthy w ->
  repo_update i p w = (Returned tt, set_db (update_in i p (db w)) (tick w)).
Proof.
  intros Hw. unfold repo_update, bind, modify. now rewrite adapter_call_healthy.
Qed.

(** The test [sessionExpiry && isSessionExpired(sessionExpiry)] of
    [loadSession], as a function of the expiry entry and the current time. *)
Lemma expiry_test (v : option string) (w : World) :
  (if truthy v then isSessionExpired v else ret false) w =
  (Returned (match v with
             | Some s => negb (String.eqb s "") && Date_lt (Date_parse s) (Some (clock w))
             | None => false
             end), w).
Proof.
  destruct v as [s|]; simpl; [|reflexivity].
  destruct (String.eqb s ""); reflexivity.
Qed.

Lemma token_is_spec (t : string) (u : AuthUser) :
  token_is t u = true <-> sessionToken u = Some t.
Proof.
  unfold token_is, strict_eq. destruct (sessionToken u) as [s|].
  - rewrite String.eqb_eq. split; [now intros -> | now intros [= ->]].
  - split; discriminate.
Qed.

(** *** Bootstrap *)

Lemma loadSession_stale (w : World) :
  stale w = true -> loadSession w = (Returned tt, purged w).
Proof.
  unfold stale. intros Hst.
  unfold loadSession. run_monad. rewrite expiry_test. simpl.
  now rewrite Hst.
Qed.

Lemma loadSession_without_token (w : World) :
  stale w = false ->
  truthy (storage w !! "auth_session_token") = false ->
  loadSession w = (Returned tt, settled None w).
Proof.
  unfold stale. intros Hst Htok.
  unfold loadSession. run_monad. rewrite expiry_test. simpl.
  rewrite Hst.
  destruct (storage w !! "auth_session_token") as [t|]; [|reflexivity].
  simpl in Htok. destruct (String.eqb t ""); [reflexivity | discriminate].
Qed.

Lemma loadSession_with_token (w : World) (tok : string) :
  healthy w ->
  stale w = false ->
  storage w !! "auth_session_token" = Some tok ->
  tok <> "" ->
  loadSession w =
  (Returned tt,
   match find (token_is tok) (db w) with
   | Some u => settled (Some u) (tick w)
   | None => purged (tick w)
   end).
Proof.
  unfold stale. intros Hw Hst Htok Hne. apply String.eqb_neq in Hne.
  unfold loadSession. run_monad. rewrite expiry_test. simpl.
  rewrite Hst, Htok, Hne. rewrite repo_list_healthy by still_healthy.
  simpl. destruct (find (token_is tok) (db w)); reflexivity.
Qed.

Lemma purged_token (w : World) :
  storage (purged w) !! "auth_session_token" = None.
Proof. simpl. rewrite lookup_delete_ne by done. apply lookup_delete_eq. Qed.

Lemma purged_expiry (w : World) :
  storage (purged w) !! "auth_session_expiry" = None.
Proof. simpl. apply lookup_delete_eq. Qed.

Lemma unexpired_not_stale (w : World) :
  (forall s t, storage w !! "auth_session_expiry" = Some s ->
               Date_parse s = Some t -> clock w <= t) ->
  stale w = false.
Proof.
  unfold stale. intros Hexp.
  destruct (storage w !! "auth_session_expiry") as [s|]; [|reflexivity].
  destruct (Date_parse s) as [t|] eqn:Ht; simpl.
  - apply andb_false_iff. right. apply Z.ltb_ge. eauto.
  - apply andb_false_r.
Qed.

(** C3. Bootstrap of an expired session: when the expiry entry of the
    session store is present (a non-empty string) and denotes a time
    strictly earlier than the current time, [loadSession] returns, both
    entries of the session store are gone, [currentUser] is null and
    [isAuthenticated] is false.  The identities are not consulted, so this
    holds whatever token is stored, whatever the identities are and
    whether or not the adapter would fail. *)
Theorem loadSession_expired (w : World) (s : string) (t : Z) :
  storage w !! "auth_session_expiry" = Some s ->
  s <> "" ->
  Date_parse s = Some t ->
  t < clock w ->
  eval loadSession w = Returned tt /\
  storage (exec loadSession w) !! "auth_session_token" = None /\
  storage (exec loadSession w) !! "auth_session_expiry" = None /\
  currentUser (hook (exec loadSession w)) = None /\
  isAuthenticated (exec loadSession w) = false.
Proof.
  intros Hs Hne Ht Hlt.
  unfold eval, exec, isAuthenticated.
  rewrite loadSession_stale.
  - simpl. repeat split; [apply purged_token | apply purged_expiry].
  - unfold stale. rewrite Hs, Ht. simpl.
    apply String.eqb_neq in Hne. rewrite Hne. simpl. now apply Z.ltb_lt.
Qed.

(** C4. Bootstrap of an orphaned token, for an adapter that does not fail.
    A token is stored when the token entry holds a non-empty string (the
    empty string is no token, for the code as for the data model).
    (1) When a token is stored, the session is not expired (no stored
    expiry denotes a time before the current time) and no identity has that
    token as its current [sessionToken], [loadSession] removes both entries
    of the session store and settles unauthenticated.
    (2) Hence after every such bootstrap, a token stored in the session
    store is the current token of some identity. *)
Theorem loadSession_orphan_token (w : World) :
  healthy w ->
  (forall tok : string,
      storage w !! "auth_session_token" = Some tok ->
      tok <> "" ->
      (forall s t, storage w !! "auth_session_expiry" = Some s ->
                   Date_parse s = Some t -> clock w <= t) ->
      (forall u, In u (db w) -> sessionToken u <> Some tok) ->
      eval loadSession w = Returned tt /\
      storage (exec loadSession w) !! "auth_session_token" = None /\
      storage (exec loadSession w) !! "auth_session_expiry" = None /\
      currentUser (hook (exec loadSession w)) = None /\
      isAuthenticated (exec loadSession w) = false) /\
  (forall tok : string,
      storage (exec loadSession w) !! "auth_session_token" = Some tok ->
      tok <> "" ->
      exists u, In u (db (exec loadSession w)) /\ sessionToken u = Some tok).
Proof.
  intros Hw. split.
  - intros tok Htok Hne Hexp Horphan.
    assert (Hfind : find (token_is tok) (db w) = None).
    { destruct (find (token_is tok) (db w)) as [u|] eqn:Hf; [|reflexivity].
      apply find_some in Hf as [Hin Hu]. apply token_is_spec in Hu.
      now destruct (Horphan u Hin). }
    unfold eval, exec, isAuthenticated.
    rewrite (loadSession_with_token w tok Hw); auto using unexpired_not_stale.
    rewrite Hfind. simpl.
    repeat split; [apply purged_token | apply purged_expiry].
  - intros tok. unfold exec.
    destruct (stale w) eqn:Hst.
    { rewrite loadSession_stale by assumption. simpl fst; simpl snd.
      rewrite purged_token. discriminate. }
    destruct (storage w !! "auth_session_token") as [t0|] eqn:Ht0.
    2:{ rewrite loadSession_without_token; auto.
        - simpl. rewrite Ht0. discriminate.
        - now rewrite Ht0. }
    destruct (String.eqb_spec t0 "") as [->|Hne0].
    { rewrite loadSession_without_token; auto.
      - simpl. rewrite Ht0. now intros [= <-] Hne.
      - now rewrite Ht0. }
    rewrite (loadSession_with_token w t0 Hw); auto.
    destruct (find (token_is t0) (db w)) as [u|] eqn:Hf.
    + simpl. rewrite Ht0. intros [= <-] _. exists u.
      apply find_some in Hf as [Hin Hu]. apply token_is_spec in Hu. auto.
    + simpl snd. rewrite purged_token. discriminate.
Qed.

(** C9. Bootstrap without an expiry entry, for an adapter that does not
    fail: when the expiry entry is absent and a token is stored (a non-empty
    string) that is the current [sessionToken] of some identity,
    [loadSession] settles authenticated with an identity that has this token
    (the first one, in the order of [list()]) and leaves the session store
    as it is; yet [isSessionExpired] returns true for the absent
    timestamp. *)
Theorem loadSession_absent_expiry (w : World) (tok : string) (u0 : AuthUser) :
  healthy w ->
  storage w !! "auth_session_expiry" = None ->
  storage w !! "auth_session_token" = Some tok ->
  tok <> "" ->
  In u0 (db w) ->
  sessionToken u0 = Some tok ->
  eval (isSessionExpired (storage w !! "auth_session_expiry")) w = Returned true /\
  eval loadSession w = Returned tt /\
  exists u,
    find (token_is tok) (db w) = Some u /\
    In u (db w) /\
    sessionToken u = Some tok /\
    currentUser (hook (exec loadSession w)) = Some u /\
    isAuthenticated (exec loadSession w) = true /\
    storage (exec loadSession w) = storage w.
Proof.
  intros Hw Hexp Htok Hne Hin Hu0.
  split; [now rewrite Hexp|].
  assert (Hst : stale w = false) by (unfold stale; now rewrite Hexp).
  unfold eval, exec, isAuthenticated.
  rewrite (loadSession_with_token w tok Hw Hst Htok Hne).
  destruct (find (token_is tok) (db w)) as [u|] eqn:Hf.
  - split; [reflexivity|]. exists u.
    apply find_some in Hf as [Hinu Hu]. apply token_is_spec in Hu.
    simpl. auto 10.
  - exfalso. apply (find_none _ _ Hf) in Hin.
    apply token_is_spec in Hu0. congruence.
Qed.

(** *** Login *)

Lemma unique_email_resolves (d : list AuthUser) (u : AuthUser) :
  unique_emails d -> In u d -> find (same_email (email u)) d = Some u.
Proof.
  unfold unique_emails. induction d as [|a d IH]; simpl; [easy|].
  intros Hnd [->|Hin].
  - unfold same_email. now rewrite String.eqb_refl.
  - inversion Hnd as [|x l Hnotin Hnd']; subst.
    unfold same_email at 1. destruct (String.eqb_spec (toLowerCase (email a))
                                        (toLowerCase (email u))) as [Heq|_].
    + exfalso. apply Hnotin. rewrite Heq.
      now apply (in_map (fun v => toLowerCase (email v))).
    + now apply IH.
Qed.

Lemma login_unknown (e p : string) (w : World) :
  healthy w ->
  find (same_email e) (db w) = None ->
  login e p w =
  (Returned (failed "Invalid email or password"),
   rejected "Invalid email or password" w).
Proof.
  intros Hw Hf. unfold login. run_monad.
  rewrite repo_list_healthy by still_healthy. simpl. now rewrite Hf.
Qed.

Lemma login_inactive (e p : string) (u : AuthUser) (w : World) :
  healthy w ->
  find (same_email e) (db w) = Some u ->
  isActive u <> "true" ->
  login e p w =
  (Returned (failed "Account is deactivated"),
   rejected "Account is deactivated" w).
Proof.
  intros Hw Hf Hact. apply String.eqb_neq in Hact. unfold login. run_monad.
  rewrite repo_list_healthy by still_healthy. simpl. now rewrite Hf, Hact.
Qed.

Lemma login_wrong_password (e p : string) (u : AuthUser) (w : World) :
  healthy w ->
  find (same_email e) (db w) = Some u ->
  isActive u = "true" ->
  passwordHash u <> sha256_hex p ->
  login e p w =
  (Returned (failed "Invalid email or password"),
   rejected "Invalid email or password" w).
Proof.
  intros Hw Hf Hact Hpw. apply String.eqb_neq in Hpw. unfold login. run_monad.
  rewrite repo_list_healthy by still_healthy. simpl.
  now rewrite Hf, Hact, Hpw.
Qed.

Lemma login_accepted (e p : string) (u : AuthUser) (w : World) :
  healthy w ->
  find (same_email e) (db w) = Some u ->
  isActive u = "true" ->
  passwordHash u = sha256_hex p ->
  login e p w = (Returned ok, logged_in u w).
Proof.
  intros Hw Hf Hact Hpw. unfold login. run_monad.
  rewrite repo_list_healthy by still_healthy. simpl.
  rewrite Hf, Hact, Hpw, !String.eqb_refl. simpl.
  rewrite repo_update_healthy by still_healthy. simpl.
  rewrite repo_get_healthy by still_healthy. simpl.
  unfold logged_in, session_fields.
  destruct (find (fun v => (id v =? id u)%Z) _); reflexivity.
Qed.

(** C10. In [login] the active-flag check precedes the verification of the
    password: for every stored identity whose [isActive] is not the string
    "true" (emails being unique up to case and the adapter not failing),
    [login] with that identity's email returns [{success: false, error:
    "Account is deactivated"}] for every password, matching or not. *)
Theorem login_deactivated (w : World) (u : AuthUser) (p : string) :
  healthy w ->
  unique_emails (db w) ->
  In u (db w) ->
  isActive u <> "true" ->
  eval (login (email u) p) w = Returned (failed "Account is deactivated").
Proof.
  intros Hw Huniq Hin Hact. unfold eval.
  now rewrite (login_inactive _ p u w Hw (unique_email_resolves _ _ Huniq Hin) Hact).
Qed.

Lemma no_match_find (e : string) (d : list AuthUser) :
  (forall v, In v d -> toLowerCase (email v) <> toLowerCase e) ->
  find (same_email e) d = None.
Proof.
  intros Hno. destruct (find (same_email e) d) as [v|] eqn:Hf; [|reflexivity].
  apply find_some in Hf as [Hin Hv]. unfold same_email in Hv.
  apply String.eqb_eq in Hv. now destruct (Hno v Hin).
Qed.

(** C1, as the code has it.  For every stored identity that is active
    ([isActive] is "true"), emails being unique up to case and the adapter
    not failing: a [login] with that identity's email and a password whose
    digest is not the stored digest returns the error "Invalid email or
    password", the same result as a [login] with an email that matches no
    stored identity, and both leave the same state behind. *)
Theorem login_uniform_rejection
    (w : World) (u : AuthUser) (p e' p' : string) :
  healthy w ->
  unique_emails (db w) ->
  In u (db w) ->
  isActive u = "true" ->
  sha256_hex p <> passwordHash u ->
  (forall v, In v (db w) -> toLowerCase (email v) <> toLowerCase e') ->
  eval (login (email u) p) w = Returned (failed "Invalid email or password") /\
  eval (login e' p') w = Returned (failed "Invalid email or password") /\
  exec (login (email u) p) w = exec (login e' p') w.
Proof.
  intros Hw Huniq Hin Hact Hpw Hno. unfold eval, exec.
  rewrite (login_wrong_password _ p u w Hw
             (unique_email_resolves _ _ Huniq Hin) Hact) by congruence.
  rewrite (login_unknown e' p' w Hw (no_match_find _ _ Hno)).
  auto.
Qed.

(** *** Signup *)

Lemma repo_create_healthy (f : AuthUserFields) (w : World) :
  healthy w ->
  repo_create f w =
  (let u := {| id := fresh_id (db w);
               email := f_email f;
               passwordHash := f_passwordHash f;
               name := f_name f;
               role := f_role f;
               sessionToken := f_sessionToken f;
               isActive := f_isActive f;
               lastLogin := f_lastLogin f;
               profileImage := f_profileImage f;
               created_at := toISOString (clock w);
               updated_at := toISOString (clock w) |} in
   (Returned u, set_db (db w ++ [u]) (tick w))).
Proof.
  intros Hw. unfold repo_create, bind, get, modify, ret, Date_now.
  now rewrite adapter_call_healthy.
Qed.

Lemma signup_existing (e p n : string) (r : option Role) (u : AuthUser) (w : World) :
  healthy w ->
  find (same_email e) (db w) = Some u ->
  signup e p n r w =
  (Returned (failed "User with this email already exists"),
   rejected "User with this email already exists" w).
Proof.
  intros Hw Hf. unfold signup. run_monad.
  rewrite repo_list_healthy by still_healthy. simpl. now rewrite Hf.
Qed.

Lemma signup_created (e p n : string) (r : option Role) (w : World) :
  healthy w ->
  find (same_email e) (db w) = None ->
  signup e p n r w = (Returned ok, signed_up e p n r w).
Proof.
  intros Hw Hf. unfold signup. run_monad.
  rewrite repo_list_healthy by still_healthy. simpl. rewrite Hf.
  rewrite repo_list_healthy by still_healthy. simpl. rewrite Hf.
  rewrite repo_create_healthy by still_healthy. simpl.
  reflexivity.
Qed.

(** C2. For every stored identity and every email equal to that identity's
    email up to letter case, [signup] with that email (the adapter not
    failing) returns [{success: false}] with the error "User with this email
    already exists" and leaves the stored identities as they were. *)
Theorem signup_duplicate_email
    (w : World) (u : AuthUser) (e p n : string) (r : option Role) :
  healthy w ->
  In u (db w) ->
  toLowerCase e = toLowerCase (email u) ->
  eval (signup e p n r) w =
    Returned (failed "User with this email already exists") /\
  db (exec (signup e p n r) w) = db w.
Proof.
  intros Hw Hin He. unfold eval, exec.
  destruct (find (same_email e) (db w)) as [v|] eqn:Hf.
  - rewrite (signup_existing e p n r v w Hw Hf). auto.
  - exfalso. apply (find_none _ _ Hf) in Hin.
    unfold same_email in Hin. rewrite He, String.eqb_refl in Hin. discriminate.
Qed.

Lemma find_last (f : AuthUser -> bool) (d : list AuthUser) (u : AuthUser) :
  find f d = None -> f u = true -> find f (d ++ [u]) = Some u.
Proof.
  induction d as [|a d IH]; simpl; intros Hf Hu.
  - now rewrite Hu.
  - destruct (f a); [discriminate | auto].
Qed.

Lemma find_updated_id (i : Z) (p : PartialAuthUser) (d : list AuthUser) (u : AuthUser) :
  In u d -> id u = i ->
  exists u', find (fun v => (id v =? i)%Z) (update_in i p d) = Some u' /\
             id u' = i /\ In u' (update_in i p d).
Proof.
  intros Hin Hid.
  destruct (find (fun v => (id v =? i)%Z) (update_in i p d)) as [u'|] eqn:Hf.
  - exists u'. apply find_some in Hf as [Hin' Hu']. apply Z.eqb_eq in Hu'. auto.
  - exfalso. unfold update_in in Hf.
    assert (Hin' := in_map (fun v => if (id v =? i)%Z then apply_partial p v else v)
                      d u Hin).
    apply (find_none _ _ Hf) in Hin'. subst i.
    rewrite (Z.eqb_refl (id u)) in Hin'. simpl in Hin'.
    rewrite Z.eqb_refl in Hin'. discriminate.
Qed.

Lemma fresh_id_above (d : list AuthUser) (v : AuthUser) :
  In v d -> id v < fresh_id d.
Proof.
  unfold fresh_id. induction d as [|a d IH]; simpl; [easy|].
  intros [->|Hin].
  - pose proof (Z.le_max_l (id v) (fold_right Z.max 0 (map id d))). lia.
  - specialize (IH Hin).
    pose proof (Z.le_max_r (id a) (fold_right Z.max 0 (map id d))). lia.
Qed.

Lemma find_created (d : list AuthUser) (p0 : PartialAuthUser) (u : AuthUser) :
  id u = fresh_id d ->
  find (fun v => (id v =? id u)%Z) (update_in (id u) p0 (d ++ [u])) =
    Some (apply_partial p0 u).
Proof.
  intros Hid. unfold update_in. rewrite map_app. simpl.
  rewrite Z.eqb_refl. apply find_last.
  - match goal with
    | |- find ?f ?l = None => destruct (find f l) as [x|] eqn:Hf; [|reflexivity]
    end.
    apply find_some in Hf as [Hin Hx].
    apply in_map_iff in Hin as (v & <- & Hv).
    apply fresh_id_above in Hv.
    destruct (id v =? id u)%Z eqn:Hvu.
    + apply Z.eqb_eq in Hvu. lia.
    + rewrite Hvu in Hx. discriminate.
  - simpl. apply Z.eqb_refl.
Qed.

(** C5. After a [signup] that succeeds (the adapter not failing), the hook
    holds the new identity, that identity is stored, and its stored email
    is the lowercase form of the given email.  A [login] that follows with
    any case variant of that email and the same password resolves the email
    to that identity, succeeds, writes a new session token and the last
    login to the identities with its id and to no other, puts the new token
    in the session store, and settles the hook on the stored record of that
    identity as updated: the same id and email, the new token.
    [toLowerCase] is taken idempotent, as the platform's is. *)
Theorem signup_then_login
    (w : World) (e p n : string) (r : option Role) :
  (forall s, toLowerCase (toLowerCase s) = toLowerCase s) ->
  healthy w ->
  eval (signup e p n r) w = Returned ok ->
  exists u,
    currentUser (hook (exec (signup e p n r) w)) = Some u /\
    In u (db (exec (signup e p n r) w)) /\
    email u = toLowerCase e /\
    forall e', toLowerCase e' = toLowerCase e ->
      find (same_email e') (db (exec (signup e p n r) w)) = Some u /\
      eval (login e' p) (exec (signup e p n r) w) = Returned ok /\
      db (exec (login e' p) (exec (signup e p n r) w)) =
        update_in (id u)
          (session_fields (uuid (entropy (exec (signup e p n r) w)))
             (toISOString (clock (exec (signup e p n r) w))))
          (db (exec (signup e p n r) w)) /\
      storage (exec (login e' p) (exec (signup e p n r) w))
        !! "auth_session_token" =
        Some (uuid (entropy (exec (signup e p n r) w))) /\
      exists u',
        currentUser (hook (exec (login e' p) (exec (signup e p n r) w))) = Some u' /\
        In u' (db (exec (login e' p) (exec (signup e p n r) w))) /\
        u' = apply_partial
               (session_fields (uuid (entropy (exec (signup e p n r) w)))
                  (toISOString (clock (exec (signup e p n r) w)))) u /\
        id u' = id u /\
        email u' = toLowerCase e /\
        sessionToken u' = Some (uuid (entropy (exec (signup e p n r) w))).
Proof.
  intros Hidem Hw Hok. unfold eval, exec in *.
  destruct (find (same_email e) (db w)) as [v|] eqn:Hf.
  { rewrite (signup_existing e p n r v w Hw Hf) in Hok. discriminate. }
  rewrite (signup_created e p n r w Hw Hf). simpl fst; simpl snd.
  set (u := new_identity e p n r w).
  exists u. split; [reflexivity|]. split; [apply in_or_app; right; now left|].
  split; [reflexivity|].
  intros e' He'.
  assert (Hw1 : healthy (signed_up e p n r w)) by still_healthy.
  assert (Hf1 : find (same_email e') (db (signed_up e p n r w)) = Some u).
  { simpl. apply find_last.
    - destruct (find (same_email e') (db w)) as [v|] eqn:Hf'; [|reflexivity].
      apply find_some in Hf' as [Hin Hv].
      apply (find_none _ _ Hf) in Hin. unfold same_email in *.
      rewrite He' in Hv. congruence.
    - unfold same_email. simpl. rewrite Hidem, He'. apply String.eqb_refl. }
  assert (Hact : isActive u = "true") by reflexivity.
  assert (Hpw : passwordHash u = sha256_hex p) by reflexivity.
  split; [exact Hf1|].
  rewrite (login_accepted e' p u _ Hw1 Hf1 Hact Hpw). simpl fst; simpl snd.
  split; [reflexivity|]. split; [reflexivity|].
  split.
  { simpl. rewrite lookup_insert_ne by done. apply lookup_insert_eq. }
  assert (Hfound :
    find (fun v => (id v =? id u)%Z)
      (update_in (id u)
         (session_fields (uuid (entropy (signed_up e p n r w)))
            (toISOString (clock (signed_up e p n r w))))
         (db (signed_up e p n r w))) =
    Some (apply_partial
            (session_fields (uuid (entropy (signed_up e p n r w)))
               (toISOString (clock (signed_up e p n r w)))) u)).
  { apply (find_created (db w)). reflexivity. }
  eexists. split.
  { unfold logged_in. cbn [hook currentUser]. rewrite Hfound. reflexivity. }
  split.
  { apply find_some in Hfound as [Hin _]. exact Hin. }
  repeat split.
Qed.

(** *** Password change *)

Lemma find_map_same_email (e : string) (g : AuthUser -> AuthUser) (d : list AuthUser) :
  (forall v, email (g v) = email v) ->
  find (same_email e) (map g d) = option_map g (find (same_email e) d).
Proof.
  intros Hg. induction d as [|a d IH]; simpl; [reflexivity|].
  unfold same_email at 1 3. rewrite Hg.
  destruct (String.eqb _ _); [reflexivity | exact IH].
Qed.

Lemma changePassword_accepted (cur new : string) (u : AuthUser) (w : World) :
  healthy w ->
  currentUser (hook w) = Some u ->
  passwordHash u = sha256_hex cur ->
  changePassword cur new w =
  (Returned ok,
   set_hook (mkHook (Some u) false None)
     (set_db (update_in (id u) (password_fields (sha256_hex new)) (db w))
        (tick w))).
Proof.
  intros Hw Hcu Hpw. unfold changePassword. run_monad.
  rewrite Hcu, Hpw, String.eqb_refl. simpl.
  rewrite repo_update_healthy by still_healthy. simpl.
  now rewrite Hcu.
Qed.

(** C6, as the code has it.  Let the hook hold an authenticated user that
    is a stored identity (the hook's copy is the stored record), emails
    being unique up to case and the adapter not failing.  [changePassword(current, new)] with [digest(current)]
    equal to the stored digest succeeds; every stored identity keeps all
    its fields, but that the identity with the user's id gets the digest of
    the new password: session tokens and the session store are untouched.
    If the identity is active, a [login] with the new password then
    succeeds.  If the digests of the two passwords differ, a [login] with
    the old password then fails ("Invalid email or password" for an active
    identity, "Account is deactivated" otherwise). *)
Theorem changePassword_then_login
    (w : World) (u : AuthUser) (cur new : string) :
  healthy w ->
  unique_emails (db w) ->
  currentUser (hook w) = Some u ->
  In u (db w) ->
  sha256_hex cur = passwordHash u ->
  eval (changePassword cur new) w = Returned ok /\
  db (exec (changePassword cur new) w) =
    map (fun v => if (id v =? id u)%Z
                  then with_passwordHash v (sha256_hex new) else v) (db w) /\
  map sessionToken (db (exec (changePassword cur new) w)) =
    map sessionToken (db w) /\
  storage (exec (changePassword cur new) w) = storage w /\
  (isActive u = "true" ->
   eval (login (email u) new) (exec (changePassword cur new) w) = Returned ok) /\
  (sha256_hex cur <> sha256_hex new ->
   eval (login (email u) cur) (exec (changePassword cur new) w) =
     Returned (failed (if String.eqb (isActive u) "true"
                       then "Invalid email or password"
                       else "Account is deactivated"))).
Proof.
  intros Hw Huniq Hcu Hin Hpw. unfold eval, exec.
  rewrite (changePassword_accepted cur new u w Hw Hcu) by congruence.
  simpl fst; simpl snd.
  set (g := fun v => if (id v =? id u)%Z
                     then with_passwordHash v (sha256_hex new) else v).
  set (w1 := set_hook _ _).
  assert (Hdb : db w1 = map g (db w)) by reflexivity.
  assert (Hw1 : healthy w1) by (subst w1; still_healthy).
  assert (Hg : forall v, email (g v) = email v).
  { intros v. unfold g. now destruct (id v =? id u)%Z. }
  assert (Hf1 : find (same_email (email u)) (db w1)
                = Some (with_passwordHash u (sha256_hex new))).
  { rewrite Hdb, (find_map_same_email _ g _ Hg).
    rewrite (unique_email_resolves _ _ Huniq Hin). simpl.
    unfold g. now rewrite Z.eqb_refl. }
  split; [reflexivity|]. split; [exact Hdb|].
  split.
  { rewrite Hdb, map_map. apply map_ext. intros v. unfold g.
    now destruct (id v =? id u)%Z. }
  split; [reflexivity|].
  split.
  - intros Hact.
    now rewrite (login_accepted (email u) new _ w1 Hw1 Hf1 Hact eq_refl).
  - intros Hdiff. destruct (String.eqb_spec (isActive u) "true") as [Hact|Hact].
    + rewrite (login_wrong_password (email u) cur _ w1 Hw1 Hf1 Hact);
        [reflexivity|].
      simpl. congruence.
    + now rewrite (login_inactive (email u) cur _ w1 Hw1 Hf1 Hact).
Qed.

(** *** Logout *)

(** C7. [logout] never throws.  In every state (no current user, a current
    user, an adapter that fails on the update that clears the stored
    session token) it returns, and afterwards both entries of the session
    store are absent and [currentUser] is null. *)
Theorem logout_always_clears (w : World) :
  eval logout w = Returned tt /\
  storage (exec logout w) !! "auth_session_token" = None /\
  storage (exec logout w) !! "auth_session_expiry" = None /\
  currentUser (hook (exec logout w)) = None.
Proof.
  unfold eval, exec, logout. run_monad.
  destruct (currentUser (hook w)) as [u|].
  - unfold repo_update, adapter_call, bind, modify.
    destruct (faults w) as [|[msg|] rest]; simpl;
      (repeat split; [rewrite lookup_delete_ne by done|]; apply lookup_delete_eq).
  - simpl.
    repeat split; [rewrite lookup_delete_ne by done|]; apply lookup_delete_eq.
Qed.

(** *** Auto-provisioning *)

Lemma initializeAdminUser_flagged (w : World) :
  storage w !! ADMIN_INITIALIZED_KEY = Some "true" ->
  initializeAdminUser w = (Returned (mkInit true None None), w).
Proof.
  intros Hflag. unfold initializeAdminUser. run_monad. now rewrite Hflag.
Qed.

Lemma initializeAdminUser_unconfigured (w : World) :
  getAdminInfo (env w) = None ->
  initializeAdminUser w = (Returned (mkInit true None None), w).
Proof.
  intros Hcfg. unfold initializeAdminUser. run_monad.
  destruct (strict_eq _ _); [reflexivity|]. now rewrite Hcfg.
Qed.

Lemma initializeAdminUser_unmatched (w : World) (info : AdminInfo) :
  healthy w ->
  getAdminInfo (env w) = Some info ->
  find (same_email (admin_email info)) (db w) = None ->
  eval initializeAdminUser w = Returned (mkInit true None None) /\
  (exec initializeAdminUser w = w \/ exec initializeAdminUser w = tick w).
Proof.
  intros Hw Hcfg Hf. unfold eval, exec, initializeAdminUser. run_monad.
  destruct (strict_eq _ _); [auto|].
  rewrite Hcfg. simpl. rewrite repo_list_healthy by still_healthy. simpl.
  unfold same_email in Hf. rewrite Hf. auto.
Qed.

Lemma initializeAdminUser_matched (w : World) (info : AdminInfo) (u : AuthUser) :
  healthy w ->
  storage w !! ADMIN_INITIALIZED_KEY <> Some "true" ->
  getAdminInfo (env w) = Some info ->
  find (same_email (admin_email info)) (db w) = Some u ->
  initializeAdminUser w =
  (Returned (mkInit true
               (Some (if truthy (sessionToken u) then u
                      else with_sessionToken u (uuid (entropy w)))) None),
   set_events ("auth_session_updated" :: events w)
     (set_storage
        (<[ADMIN_INITIALIZED_KEY := "true"]>
           (<["auth_session_expiry" := toISOString (clock w + 30 * 24 * 60 * 60 * 1000)]>
              (<[AUTH_SESSION_TOKEN := admin_token u w]> (storage w))))
        (if truthy (sessionToken u) then tick w
         else set_db (update_in (id u)
                        (session_fields (uuid (entropy w)) (toISOString (clock w)))
                        (db w))
                (set_entropy (S (entropy w)) (tick (tick w)))))).
Proof.
  intros Hw Hflag Hcfg Hf. unfold initializeAdminUser. run_monad.
  replace (strict_eq (storage w !! ADMIN_INITIALIZED_KEY) "true") with false.
  2:{ unfold strict_eq. destruct (storage w !! ADMIN_INITIALIZED_KEY) as [v|];
        [|reflexivity].
      destruct (String.eqb_spec v "true"); [subst; now destruct Hflag | reflexivity]. }
  rewrite Hcfg. simpl. rewrite repo_list_healthy by still_healthy. simpl.
  unfold same_email in Hf. rewrite Hf. unfold admin_token.
  destruct (truthy (sessionToken u)) eqn:Htr; simpl.
  - reflexivity.
  - rewrite repo_update_healthy by still_healthy. reflexivity.
Qed.

(** C8. [initializeAdminUser].
    (1) It is a no-op that returns [{success: true}] when the initialized
    flag is set, when the admin configuration is absent, and when no stored
    identity matches the configured email (the adapter not failing):
    identities, [localStorage],
    dispatched events and hook state stay as they are.
    (2) Otherwise, the adapter not failing and [u] being the matched
    identity: the token is [u]'s own
    when it has one (then the identities are not written) and a newly
    minted one persisted to [u] when it has none (absent or empty); in both
    cases a stored identity with [u]'s id has that token afterwards, the
    session store holds that token and the expiry "now + 30 days", the
    initialized flag is "true", the notification is dispatched, and a
    second run is a no-op returning [{success: true}]. *)
Theorem initializeAdminUser_once (w : World) :
  (storage w !! ADMIN_INITIALIZED_KEY = Some "true" \/
   getAdminInfo (env w) = None \/
   (healthy w /\
    exists info, getAdminInfo (env w) = Some info /\
                 forall v, In v (db w) ->
                           toLowerCase (email v) <> toLowerCase (admin_email info)) ->
   eval initializeAdminUser w = Returned (mkInit true None None) /\
   db (exec initializeAdminUser w) = db w /\
   storage (exec initializeAdminUser w) = storage w /\
   events (exec initializeAdminUser w) = events w /\
   hook (exec initializeAdminUser w) = hook w) /\
  (forall info u,
     healthy w ->
     storage w !! ADMIN_INITIALIZED_KEY <> Some "true" ->
     getAdminInfo (env w) = Some info ->
     find (same_email (admin_email info)) (db w) = Some u ->
     eval initializeAdminUser w =
       Returned (mkInit true
                   (Some (if truthy (sessionToken u) then u
                          else with_sessionToken u (uuid (entropy w)))) None) /\
     db (exec initializeAdminUser w) =
       (if truthy (sessionToken u) then db w
        else update_in (id u)
               (session_fields (uuid (entropy w)) (toISOString (clock w)))
               (db w)) /\
     (exists u', In u' (db (exec initializeAdminUser w)) /\
                 id u' = id u /\
                 sessionToken u' = Some (admin_token u w)) /\
     storage (exec initializeAdminUser w) =
       <[ADMIN_INITIALIZED_KEY := "true"]>
         (<["auth_session_expiry" := toISOString (clock w + 30 * 24 * 60 * 60 * 1000)]>
            (<[AUTH_SESSION_TOKEN := admin_token u w]> (storage w))) /\
     events (exec initializeAdminUser w) = "auth_session_updated" :: events w /\
     initializeAdminUser (exec initializeAdminUser w) =
       (Returned (mkInit true None None), exec initializeAdminUser w)).
Proof.
  split.
  - intros [Hflag | [Hcfg | (Hw & info & Hcfg & Hno)]]; unfold eval, exec.
    + now rewrite initializeAdminUser_flagged.
    + now rewrite initializeAdminUser_unconfigured.
    + destruct (initializeAdminUser_unmatched w info Hw Hcfg
                  (no_match_find _ _ Hno)) as [Hres [Hw' | Hw']];
        unfold eval, exec in *; rewrite Hres, Hw'; auto.
  - intros info u Hw Hflag Hcfg Hf. unfold eval, exec.
    rewrite (initializeAdminUser_matched w info u Hw Hflag Hcfg Hf).
    simpl fst; simpl snd.
    split; [reflexivity|].
    split; [now destruct (truthy (sessionToken u))|].
    split.
    { apply find_some in Hf as [Hin _]. unfold admin_token.
      destruct (truthy (sessionToken u)) eqn:Htr.
      - exists u. simpl. repeat split; auto.
        destruct (sessionToken u); [reflexivity | discriminate].
      - exists (apply_partial
                  (session_fields (uuid (entropy w)) (toISOString (clock w))) u).
        simpl. repeat split; auto. unfold update_in.
        apply in_map_iff. exists u. now rewrite Z.eqb_refl. }
    split; [reflexivity|]. split; [reflexivity|].
    apply initializeAdminUser_flagged. simpl. apply lookup_insert_eq.
Qed.

End Runs.

(** ** The operations on the reference platform *)

Section OnReference.
Import Reference.
#[local] Existing Instance platform.

Lemma lower_ascii_idempotent (c : ascii) :
  lower_ascii (lower_ascii c) = lower_ascii c.
Proof. destruct c as [[] [] [] [] [] [] [] []]; reflexivity. Qed.

Lemma lower_idempotent (s : string) : lower (lower s) = lower s.
Proof.
  induction s as [|c s IH]; simpl; [reflexivity|].
  now rewrite lower_ascii_idempotent, IH.
Qed.

Lemma unique_emails_reference : unique_emails [alice; bob].
Proof.
  unfold unique_emails. simpl.
  repeat constructor; simpl; intuition discriminate.
Qed.

Lemma healthy_world d s cu : healthy (world d s cu).
Proof. constructor. Qed.

Lemma loadSession_expired_witness :
  eval loadSession expired_world = Returned tt /\
  storage (exec loadSession expired_world) !! "auth_session_token" = None /\
  storage (exec loadSession expired_world) !! "auth_session_expiry" = None /\
  currentUser (hook (exec loadSession expired_world)) = None /\
  isAuthenticated (exec loadSession expired_world) = false.
Proof.
  apply (loadSession_expired expired_world "500" 500);
    [reflexivity | discriminate | reflexivity | reflexivity].
Defined.

Lemma login_uniform_rejection_witness :
  eval (login "a@x.com" "wrong") fresh_world =
    Returned (failed "Invalid email or password") /\
  eval (login "nobody@x.com" "guess") fresh_world =
    Returned (failed "Invalid email or password") /\
  exec (login "a@x.com" "wrong") fresh_world =
    exec (login "nobody@x.com" "guess") fresh_world.
Proof.
  apply (login_uniform_rejection fresh_world alice "wrong" "nobody@x.com" "guess").
  - apply healthy_world.
  - exact unique_emails_reference.
  - simpl; auto.
  - reflexivity.
  - discriminate.
  - intros v [<-|[<-|[]]]; discriminate.
Defined.

(** C1 does not hold as stated: bob is a stored identity, "wrong" is not
    his password, and [login] with his email answers "Account is
    deactivated", not "Invalid email or password". *)
Lemma deactivated_login_not_uniform :
  ~ (forall (w : World) (u : AuthUser) (p : string),
        healthy w ->
        unique_emails (db w) ->
        In u (db w) ->
        sha256_hex p <> passwordHash u ->
        eval (login (email u) p) w =
          Returned (failed "Invalid email or password")).
Proof.
  intros Hclaim.
  specialize (Hclaim fresh_world bob "wrong" (healthy_world _ _ _)
                unique_emails_reference).
  assert (Hres : eval (login (email bob) "wrong") fresh_world =
                 Returned (failed "Account is deactivated")) by reflexivity.
  rewrite Hclaim in Hres; [discriminate | simpl; auto | discriminate].
Qed.

Lemma signup_duplicate_email_witness :
  eval (signup "A@X.COM" "pw2" "Another A" None) fresh_world =
    Returned (failed "User with this email already exists") /\
  db (exec (signup "A@X.COM" "pw2" "Another A" None) fresh_world) =
    db fresh_world.
Proof.
  apply (signup_duplicate_email fresh_world alice).
  - apply healthy_world.
  - simpl; auto.
  - reflexivity.
Defined.

Lemma loadSession_orphan_token_witness :
  (storage (exec loadSession orphan_world) !! "auth_session_token" = None /\
   storage (exec loadSession orphan_world) !! "auth_session_expiry" = None /\
   isAuthenticated (exec loadSession orphan_world) = false) /\
  (exists u, In u (db (exec loadSession open_world)) /\
             sessionToken u = Some "tok-a").
Proof.
  split.
  - destruct (proj1 (loadSession_orphan_token orphan_world (healthy_world _ _ _))
                "tok-zz") as (_ & Htok & Hexp & _ & Hauth).
    + reflexivity.
    + discriminate.
    + intros s t [= <-] [= <-]. discriminate.
    + intros u [<-|[<-|[]]]; discriminate.
    + auto.
  - apply (proj2 (loadSession_orphan_token open_world (healthy_world _ _ _))
             "tok-a"); [reflexivity | discriminate].
Defined.

Lemma signup_then_login_witness :
  exists u u',
    currentUser (hook (exec (signup "a@x.com" "pw" "A" None) empty_world)) = Some u /\
    email u = "a@x.com" /\
    find (same_email "A@X.com")
      (db (exec (signup "a@x.com" "pw" "A" None) empty_world)) = Some u /\
    eval (login "A@X.com" "pw")
      (exec (signup "a@x.com" "pw" "A" None) empty_world) = Returned ok /\
    currentUser (hook (exec (login "A@X.com" "pw")
                         (exec (signup "a@x.com" "pw" "A" None) empty_world)))
      = Some u' /\
    id u' = id u /\
    email u' = "a@x.com" /\
    sessionToken u' = Some (uuid 1).
Proof.
  destruct (@signup_then_login platform empty_world "a@x.com" "pw" "A" None
              lower_idempotent (healthy_world _ _ _) eq_refl)
    as (u & Hcu & _ & Hmail & Hlogin).
  destruct (Hlogin "A@X.com" eq_refl)
    as (Hfind & Hok & _ & _ & u' & Hcu' & _ & _ & Hid & Hmail' & Htok).
  exists u, u'. repeat split; assumption.
Defined.

Lemma changePassword_then_login_witness :
  eval (changePassword "pw" "pw2") alice_world = Returned ok /\
  eval (login "a@x.com" "pw2") (exec (changePassword "pw" "pw2") alice_world) =
    Returned ok /\
  eval (login "a@x.com" "pw") (exec (changePassword "pw" "pw2") alice_world) =
    Returned (failed "Invalid email or password").
Proof.
  destruct (changePassword_then_login alice_world alice "pw" "pw2")
    as (Hok & _ & _ & _ & Hnew & Hold).
  - apply healthy_world.
  - exact unique_emails_reference.
  - reflexivity.
  - simpl; auto.
  - reflexivity.
  - split; [exact Hok|]. split; [now apply Hnew|]. apply Hold. discriminate.
Defined.

(** C6 does not hold as stated: bob, deactivated, is the authenticated
    user; his [changePassword] with the correct current password succeeds,
    and the [login] with the new password that follows is refused
    ("Account is deactivated"). *)
Lemma changePassword_deactivated_no_login :
  ~ (forall (w : World) (u : AuthUser) (cur new : string),
        healthy w ->
        unique_emails (db w) ->
        currentUser (hook w) = Some u ->
        In u (db w) ->
        sha256_hex cur = passwordHash u ->
        eval (changePassword cur new) w = Returned ok /\
        eval (login (email u) new) (exec (changePassword cur new) w) = Returned ok /\
        eval (login (email u) cur) (exec (changePassword cur new) w) <> Returned ok).
Proof.
  intros Hclaim.
  destruct (Hclaim bob_world bob "secret" "fresh" (healthy_world _ _ _)
              unique_emails_reference eq_refl) as (_ & Hnew & _).
  - simpl; auto.
  - reflexivity.
  - assert (Hres : eval (login (email bob) "fresh")
                     (exec (changePassword "secret" "fresh") bob_world) =
                   Returned (failed "Account is deactivated")) by reflexivity.
    rewrite Hnew in Hres. discriminate.
Qed.

(** How a deactivated identity comes to be the authenticated user:
    [loadSession] settles on the identity that has the stored token and
    does not look at [isActive]. *)
Example loadSession_settles_deactivated :
  currentUser (hook (exec loadSession
                       (world [alice; bob] (session "tok-b" "5000") None))) =
    Some bob.
Proof. reflexivity. Qed.

(** A new password equal to the current one: the [login] with the old
    password then succeeds. *)
Example changePassword_same_password :
  eval (changePassword "pw" "pw") alice_world = Returned ok /\
  eval (login "a@x.com" "pw") (exec (changePassword "pw" "pw") alice_world) =
    Returned ok.
Proof. split; reflexivity. Qed.

(** The hook keeps its copy of the user after [changePassword]: a second
    change is checked against the digest the hook holds, not the stored one,
    and refuses the password that is now the stored one. *)
Example changePassword_twice :
  eval (changePassword "pw" "pw2") alice_world = Returned ok /\
  eval (changePassword "pw2" "pw3") (exec (changePassword "pw" "pw2") alice_world) =
    Returned (failed "Current password is incorrect").
Proof. split; reflexivity. Qed.

(** [logout] with an adapter that fails on the update: the failure is
    swallowed, the session store is emptied, the stored token of the
    identity stays. *)
Example logout_failing_adapter :
  eval logout failing_world = Returned tt /\
  storage (exec logout failing_world) = ∅ /\
  currentUser (hook (exec logout failing_world)) = None /\
  db (exec logout failing_world) = db failing_world.
Proof. repeat split; reflexivity. Qed.

(** An empty token entry is no token: [loadSession] settles
    unauthenticated and leaves the entry. *)
Example loadSession_blank_token :
  isAuthenticated (exec loadSession blank_world) = false /\
  storage (exec loadSession blank_world) !! "auth_session_token" = Some "".
Proof. split; reflexivity. Qed.

Lemma initializeAdminUser_once_witness :
  init_success <$> (match eval initializeAdminUser admin_world with
                    | Returned r => Some r | Thrown _ => None end) = Some true /\
  storage (exec initializeAdminUser admin_world) !! "auth_session_token" =
    Some "uuid-0" /\
  storage (exec initializeAdminUser admin_world) !! "auth_session_expiry" =
    Some "2592001000" /\
  storage (exec initializeAdminUser admin_world) !! "shipper_admin_initialized" =
    Some "true" /\
  (exists u', In u' (db (exec initializeAdminUser admin_world)) /\
              id u' = 3 /\ sessionToken u' = Some "uuid-0") /\
  initializeAdminUser (exec initializeAdminUser admin_world) =
    (Returned (mkInit true None None), exec initializeAdminUser admin_world).
Proof.
  destruct (proj2 (initializeAdminUser_once admin_world)
              (mkAdminInfo "Root" "root@x.com") root)
    as (Hres & _ & Hid & Hst & _ & Hagain).
  - constructor.
  - discriminate.
  - reflexivity.
  - reflexivity.
  - rewrite Hres, Hst. repeat split; try reflexivity; assumption.
Defined.

Lemma loadSession_absent_expiry_witness :
  eval (isSessionExpired None) open_world = Returned true /\
  currentUser (hook (exec loadSession open_world)) = Some alice /\
  isAuthenticated (exec loadSession open_world) = true.
Proof.
  destruct (loadSession_absent_expiry open_world "tok-a" alice)
    as (Hexp & _ & u & Hf & _ & _ & Hcu & Hauth & _).
  - apply healthy_world.
  - reflexivity.
  - reflexivity.
  - discriminate.
  - simpl; auto.
  - reflexivity.
  - split; [exact Hexp|]. split; [|exact Hauth].
    rewrite Hcu. rewrite <- Hf. reflexivity.
Defined.

Lemma login_deactivated_witness :
  eval (login "b@x.com" "secret") fresh_world =
    Returned (failed "Account is deactivated") /\
  eval (login "b@x.com" "wrong") fresh_world =
    Returned (failed "Account is deactivated").
Proof.
  split; apply (login_deactivated fresh_world bob);
    try apply healthy_world; try exact unique_emails_reference;
    try (simpl; auto; fail); discriminate.
Defined.

End OnReference.

(** ** Further properties of the hook *)

Section HookProperties.
Context `{Platform}.

Lemma adapter_call_failing (w : World) (msg : string) (rest : list (option string)) :
  faults w = Some msg :: rest ->
  adapter_call w = (Thrown (mkError msg), set_faults rest w).
Proof. unfold adapter_call. now intros ->. Qed.

Lemma repo_list_failing (w : World) (msg : string) (rest : list (option string)) :
  faults w = Some msg :: rest ->
  repo_list w = (Thrown (mkError msg), set_faults rest w).
Proof.
  intros Hf. unfold repo_list, bind. now rewrite (adapter_call_failing w msg rest Hf).
Qed.

Lemma repo_update_failing (i : Z) (p : PartialAuthUser) (w : World)
    (msg : string) (rest : list (option string)) :
  faults w = Some msg :: rest ->
  repo_update i p w = (Thrown (mkError msg), set_faults rest w).
Proof.
  intros Hf. unfold repo_update, bind.
  now rewrite (adapter_call_failing w msg rest Hf).
Qed.

Lemma repo_get_failing (i : Z) (w : World)
    (msg : string) (rest : list (option string)) :
  faults w = Some msg :: rest ->
  repo_get i w = (Thrown (mkError msg), set_faults rest w).
Proof.
  intros Hf. unfold repo_get, bind.
  now rewrite (adapter_call_failing w msg rest Hf).
Qed.

(** Two bootstraps in a row: on the identities, the session store and the
    current user, the second run of [loadSession] changes nothing the first
    has not done (the adapter not failing). *)
Theorem loadSession_idempotent (w : World) :
  healthy w ->
  db (exec loadSession (exec loadSession w)) = db (exec loadSession w) /\
  storage (exec loadSession (exec loadSession w)) = storage (exec loadSession w) /\
  currentUser (hook (exec loadSession (exec loadSession w))) =
    currentUser (hook (exec loadSession w)).
Proof.
  intros Hw.
  assert (Hpurged : forall w0, stale (purged w0) = false /\
            truthy (storage (purged w0) !! "auth_session_token") = false).
  { intros w0. unfold stale. rewrite purged_expiry, purged_token. auto. }
  assert (Hafter_purge : forall w0,
            exec loadSession (purged w0) = settled None (purged w0)).
  { intros w0. destruct (Hpurged w0) as [Hs Ht]. unfold exec.
    now rewrite loadSession_without_token. }
  remember (exec loadSession w) as w1 eqn:Hw1. unfold exec in Hw1.
  destruct (stale w) eqn:Hst.
  { rewrite loadSession_stale in Hw1 by assumption. simpl in Hw1. subst w1.
    rewrite Hafter_purge. auto. }
  destruct (truthy (storage w !! "auth_session_token")) eqn:Htr.
  2:{ rewrite loadSession_without_token in Hw1 by assumption.
      simpl in Hw1. subst w1.
      unfold exec. rewrite loadSession_without_token; auto. }
  destruct (storage w !! "auth_session_token") as [tok|] eqn:Htok; [|discriminate].
  assert (Hne : tok <> "") by (simpl in Htr; intros ->; discriminate).
  rewrite (loadSession_with_token w tok Hw Hst Htok Hne) in Hw1.
  destruct (find (token_is tok) (db w)) as [u|] eqn:Hf; simpl in Hw1; subst w1.
  - unfold exec.
    rewrite (loadSession_with_token (settled (Some u) (tick w)) tok);
      auto; try still_healthy.
    simpl. now rewrite Hf.
  - rewrite Hafter_purge. auto.
Qed.

(** A bootstrap whose adapter call fails: with a stored token and a session
    that is not expired, [loadSession] returns, reports "Failed to load
    session", and leaves the current user and the session store as they
    were: a user that was authenticated stays so. *)
Theorem loadSession_adapter_failure
    (w : World) (tok msg : string) (rest : list (option string)) :
  faults w = Some msg :: rest ->
  stale w = false ->
  storage w !! "auth_session_token" = Some tok ->
  tok <> "" ->
  eval loadSession w = Returned tt /\
  hook (exec loadSession w) =
    mkHook (currentUser (hook w)) false (Some "Failed to load session") /\
  storage (exec loadSession w) = storage w /\
  db (exec loadSession w) = db w.
Proof.
  unfold stale. intros Hf Hst Htok Hne. apply String.eqb_neq in Hne.
  unfold eval, exec, loadSession. run_monad. rewrite expiry_test. simpl.
  rewrite Hst, Htok, Hne.
  rewrite (repo_list_failing _ msg rest) by exact Hf.
  simpl. auto.
Qed.

Lemma loadSession_tokenless (w : World) :
  truthy (storage w !! "auth_session_token") = false ->
  eval loadSession w = Returned tt /\
  isAuthenticated (exec loadSession w) = false /\
  faults (exec loadSession w) = faults w /\
  db (exec loadSession w) = db w.
Proof.
  intros Htr. unfold eval, exec, isAuthenticated.
  destruct (stale w) eqn:Hst.
  - rewrite loadSession_stale by assumption. auto.
  - rewrite loadSession_without_token by assumption. auto.
Qed.

(** Without a stored token (no entry, or an empty one) [loadSession] never
    settles authenticated, whoever the current user was and whatever the
    adapter would do; it does not call the adapter and does not touch the
    identities. *)
Theorem loadSession_needs_token (w : World) :
  truthy (storage w !! "auth_session_token") = false ->
  eval loadSession w = Returned tt /\
  isAuthenticated (exec loadSession w) = false /\
  faults (exec loadSession w) = faults w /\
  db (exec loadSession w) = db w.
Proof. exact (loadSession_tokenless w). Qed.

(** *** Login *)

Lemma login_ok_inv (e p : string) (w : World) :
  healthy w ->
  eval (login e p) w = Returned ok ->
  exists u, find (same_email e) (db w) = Some u /\
            isActive u = "true" /\
            passwordHash u = sha256_hex p.
Proof.
  intros Hw Hok. unfold eval in Hok.
  destruct (find (same_email e) (db w)) as [u|] eqn:Hf.
  2:{ rewrite (login_unknown e p w Hw Hf) in Hok. discriminate. }
  destruct (String.eqb_spec (isActive u) "true") as [Hact|Hact].
  2:{ rewrite (login_inactive e p u w Hw Hf Hact) in Hok. discriminate. }
  destruct (String.eqb_spec (passwordHash u) (sha256_hex p)) as [Hpw|Hpw].
  2:{ rewrite (login_wrong_password e p u w Hw Hf Hact Hpw) in Hok. discriminate. }
  eauto.
Qed.


Lemma updated_has_token (d : list AuthUser) (u : AuthUser) (tok last : string) :
  In u d ->
  exists v, find (token_is tok) (update_in (id u) (session_fields tok last) d) = Some v /\
            sessionToken v = Some tok.
Proof.
  intros Hin.
  destruct (find (token_is tok) (update_in (id u) (session_fields tok last) d))
    as [v|] eqn:Hf.
  - exists v. split; [reflexivity|].
    apply find_some in Hf as [_ Hv]. now apply token_is_spec.
  - exfalso. unfold update_in in Hf.
    assert (Hin' := in_map (fun v => if (id v =? id u)%Z
                                     then apply_partial (session_fields tok last) v
                                     else v) d u Hin).
    apply (find_none _ _ Hf) in Hin'. simpl in Hin'.
    rewrite Z.eqb_refl in Hin'. unfold token_is in Hin'. simpl in Hin'.
    rewrite String.eqb_refl in Hin'. discriminate.
Qed.

(** The lifetime of a session.  After a successful [login] at time
    [clock w], a bootstrap at time [t] settles authenticated on an identity
    that holds the new token as long as [t] is at most 30 days later, and
    purges the session store and settles unauthenticated once [t] is more
    than 30 days later.  The platform is taken to parse the timestamps it
    prints, and to print and draw non-empty strings. *)
Theorem login_session_lifetime (w : World) (e p : string) (t : Z) :
  (forall z, Date_parse (toISOString z) = Some z) ->
  (forall z, toISOString z <> "") ->
  uuid (entropy w) <> "" ->
  healthy w ->
  eval (login e p) w = Returned ok ->
  (t <= clock w + SESSION_EXPIRY_MS ->
   exists v,
     currentUser (hook (exec loadSession (set_clock t (exec (login e p) w)))) = Some v /\
     sessionToken v = Some (uuid (entropy w)) /\
     storage (exec loadSession (set_clock t (exec (login e p) w)))
       !! "auth_session_token" = Some (uuid (entropy w))) /\
  (clock w + SESSION_EXPIRY_MS < t ->
   isAuthenticated (exec loadSession (set_clock t (exec (login e p) w))) = false /\
   storage (exec loadSession (set_clock t (exec (login e p) w)))
     !! "auth_session_token" = None /\
   storage (exec loadSession (set_clock t (exec (login e p) w)))
     !! "auth_session_expiry" = None).
Proof.
  intros Hparse Hiso Huuid Hw Hok.
  destruct (login_ok_inv e p w Hw Hok) as (u & Hf & Hact & Hpw).
  unfold exec at 2 4 6 8 10. rewrite (login_accepted e p u w Hw Hf Hact Hpw).
  simpl snd.
  set (later := set_clock t (logged_in u w)).
  assert (Hexp : storage later !! "auth_session_expiry"
                 = Some (toISOString (clock w + SESSION_EXPIRY_MS))).
  { simpl. apply lookup_insert_eq. }
  assert (Htok : storage later !! "auth_session_token" = Some (uuid (entropy w))).
  { simpl. rewrite lookup_insert_ne by done. apply lookup_insert_eq. }
  assert (Hst : stale later = (clock w + SESSION_EXPIRY_MS <? t)%Z).
  { unfold stale. rewrite Hexp, Hparse.
    rewrite (proj2 (String.eqb_neq _ _) (Hiso _)). reflexivity. }
  assert (Hlater : healthy later) by (subst later; still_healthy).
  split.
  - intros Hle.
    assert (Hst' : stale later = false).
    { rewrite Hst. apply Z.ltb_ge. exact Hle. }
    unfold exec.
    rewrite (loadSession_with_token later _ Hlater Hst' Htok Huuid).
    apply find_some in Hf as [Hin _].
    destruct (updated_has_token (db w) u (uuid (entropy w))
                (toISOString (clock w)) Hin) as (v & Hfv & Hv).
    change (db later) with
      (update_in (id u) (session_fields (uuid (entropy w)) (toISOString (clock w)))
         (db w)).
    rewrite Hfv. exists v. simpl snd. split; [reflexivity|]. split; [exact Hv|].
    exact Htok.
  - intros Hlt.
    assert (Hst' : stale later = true).
    { rewrite Hst. apply Z.ltb_lt. exact Hlt. }
    unfold exec, isAuthenticated. rewrite (loadSession_stale later Hst').
    simpl snd. rewrite purged_token, purged_expiry. auto.
Qed.

Lemma update_drops_token (d : list AuthUser) (i : Z) (old tok last : string) :
  old <> tok ->
  (forall v, In v d -> sessionToken v = Some old -> id v = i) ->
  forall v, In v (update_in i (session_fields tok last) d) ->
            sessionToken v <> Some old.
Proof.
  intros Hne Honly v Hin. unfold update_in in Hin.
  apply in_map_iff in Hin as (v0 & <- & Hin0).
  destruct (id v0 =? i)%Z eqn:Hid.
  - simpl. congruence.
  - intros Hold. apply Z.eqb_neq in Hid. apply Hid. now apply Honly.
Qed.

(** A successful [login] invalidates the token issued before: if only the
    identity that logs in held the token [old], and the new token differs
    from it, no stored identity holds [old] afterwards (so a session store
    that still has [old] is purged by the next bootstrap). *)
Theorem login_revokes_previous_token
    (w : World) (e p : string) (u : AuthUser) (old : string) :
  healthy w ->
  find (same_email e) (db w) = Some u ->
  isActive u = "true" ->
  passwordHash u = sha256_hex p ->
  old <> uuid (entropy w) ->
  (forall v, In v (db w) -> sessionToken v = Some old -> id v = id u) ->
  eval (login e p) w = Returned ok /\
  storage (exec (login e p) w) !! "auth_session_token" = Some (uuid (entropy w)) /\
  forall v, In v (db (exec (login e p) w)) -> sessionToken v <> Some old.
Proof.
  intros Hw Hf Hact Hpw Hne Honly. unfold eval, exec.
  rewrite (login_accepted e p u w Hw Hf Hact Hpw). simpl fst; simpl snd.
  split; [reflexivity|]. split.
  - simpl. rewrite lookup_insert_ne by done. apply lookup_insert_eq.
  - simpl. now apply update_drops_token.
Qed.

(** A [login] whose update fails: when [list] returns, the checks pass and
    [repo.update] throws, [login] reports a failure with the message of the
    error (or "Failed to log in" when it has none); the session store is
    not written, no notification is dispatched, the identities and the
    current user stay, and one token has been drawn. *)
Theorem login_update_failure
    (w : World) (e p msg : string) (u : AuthUser) (rest : list (option string)) :
  faults w = None :: Some msg :: rest ->
  find (same_email e) (db w) = Some u ->
  isActive u = "true" ->
  passwordHash u = sha256_hex p ->
  eval (login e p) w = Returned (failed (or_else msg "Failed to log in")) /\
  storage (exec (login e p) w) = storage w /\
  events (exec (login e p) w) = events w /\
  db (exec (login e p) w) = db w /\
  entropy (exec (login e p) w) = S (entropy w) /\
  hook (exec (login e p) w) =
    mkHook (currentUser (hook w)) false (Some (or_else msg "Failed to log in")).
Proof.
  intros Hfl Hf Hact Hpw. unfold eval, exec, login. run_monad.
  unfold repo_list, adapter_call, bind, get. simpl. rewrite Hfl. simpl.
  rewrite Hf, Hact, Hpw, !String.eqb_refl. simpl.
  unfold repo_update, adapter_call, bind, modify. simpl.
  repeat split.
Qed.


(** *** Logout *)

(** [logout] and the stored token.  When the adapter does not fail, the
    token of the current user is revoked: if only identities with the
    user's id held the non-empty token [old], no stored identity holds it
    afterwards.  When the adapter fails on the update, the identities are
    left as they were (the token is not revoked), though the local session
    is cleared all the same. *)
Theorem logout_token_revocation (w : World) (u : AuthUser) (old : string) :
  currentUser (hook w) = Some u ->
  (healthy w ->
   old <> "" ->
   (forall v, In v (db w) -> sessionToken v = Some old -> id v = id u) ->
   forall v, In v (db (exec logout w)) -> sessionToken v <> Some old) /\
  (forall msg rest,
     faults w = Some msg :: rest ->
     db (exec logout w) = db w /\
     storage (exec logout w) !! "auth_session_token" = None).
Proof.
  intros Hcu. split.
  - intros Hw Hne Honly. unfold exec, logout. run_monad. rewrite Hcu.
    rewrite repo_update_healthy by still_healthy. simpl.
    intros v Hin. unfold update_in in Hin.
    apply in_map_iff in Hin as (v0 & <- & Hin0).
    destruct (id v0 =? id u)%Z eqn:Hid.
    + simpl. congruence.
    + intros Hold. apply Z.eqb_neq in Hid. apply Hid. now apply Honly.
  - intros msg rest Hfl. unfold exec, logout. run_monad. rewrite Hcu.
    rewrite (repo_update_failing _ _ _ msg rest) by exact Hfl. simpl.
    split; [reflexivity|].
    rewrite lookup_delete_ne by done. apply lookup_delete_eq.
Qed.

Lemma logout_leaves_no_session (w : World) :
  storage (exec logout w) !! "auth_session_token" = None /\
  storage (exec logout w) !! "auth_session_expiry" = None.
Proof.
  unfold exec, logout. run_monad.
  destruct (currentUser (hook w)) as [u|].
  - unfold repo_update, adapter_call, bind, modify.
    destruct (faults w) as [|[msg|] rest]; simpl;
      (split; [rewrite lookup_delete_ne by done|]; apply lookup_delete_eq).
  - simpl. split; [rewrite lookup_delete_ne by done|]; apply lookup_delete_eq.
Qed.

(** [logout] followed by a bootstrap: whatever the adapter does, the
    bootstrap settles unauthenticated and the session store stays without
    token and expiry. *)
Theorem logout_then_loadSession (w : World) :
  isAuthenticated (exec loadSession (exec logout w)) = false /\
  storage (exec loadSession (exec logout w)) !! "auth_session_token" = None /\
  storage (exec loadSession (exec logout w)) !! "auth_session_expiry" = None.
Proof.
  destruct (logout_leaves_no_session w) as (Htok & Hexp).
  assert (Hst : stale (exec logout w) = false) by (unfold stale; now rewrite Hexp).
  assert (Htr : truthy (storage (exec logout w) !! "auth_session_token") = false)
    by now rewrite Htok.
  unfold exec at 1 3 5, isAuthenticated.
  rewrite (loadSession_without_token _ Hst Htr). simpl. auto.
Qed.

(** *** Signup *)

(** [signup] keeps the emails unique up to letter case: whether it creates
    an identity or refuses, the stored identities have pairwise different
    lowercased emails afterwards if they had before (the adapter not
    failing, [toLowerCase] idempotent). *)
Theorem signup_keeps_emails_unique
    (w : World) (e p n : string) (r : option Role) :
  (forall s, toLowerCase (toLowerCase s) = toLowerCase s) ->
  healthy w ->
  unique_emails (db w) ->
  unique_emails (db (exec (signup e p n r) w)).
Proof.
  intros Hidem Hw Huniq. unfold exec.
  destruct (find (same_email e) (db w)) as [v|] eqn:Hf.
  { now rewrite (signup_existing e p n r v w Hw Hf). }
  rewrite (signup_created e p n r w Hw Hf). simpl.
  unfold unique_emails in *. rewrite map_app. simpl.
  apply NoDup_ListNoDup, NoDup_app. split; [now apply NoDup_ListNoDup|].
  split; [|apply NoDup_singleton].
  intros x Hx Hx'. apply list_elem_of_singleton in Hx'. subst x.
  apply list_elem_of_In, in_map_iff in Hx as (v & Hv & Hin).
  apply (find_none _ _ Hf) in Hin. unfold same_email in Hin.
  rewrite Hidem in Hv. rewrite Hv, String.eqb_refl in Hin. discriminate.
Qed.

(** The reload that [signup] triggers by its own notification keeps the
    new user: after a successful [signup], [handleCustomStorageChange]
    settles on the created identity and leaves the session store as
    [signup] wrote it, provided no identity stored before held the drawn
    token.  The platform is taken to parse the timestamps it prints, and to
    print and draw non-empty strings. *)
Theorem signup_reload_keeps_user
    (w : World) (e p n : string) (r : option Role) :
  (forall z, Date_parse (toISOString z) = Some z) ->
  (forall z, toISOString z <> "") ->
  uuid (entropy w) <> "" ->
  (forall v, In v (db w) -> sessionToken v <> Some (uuid (entropy w))) ->
  healthy w ->
  eval (signup e p n r) w = Returned ok ->
  events (exec (signup e p n r) w) = "auth_session_updated" :: events w /\
  currentUser (hook (exec handleCustomStorageChange (exec (signup e p n r) w))) =
    currentUser (hook (exec (signup e p n r) w)) /\
  isAuthenticated (exec handleCustomStorageChange (exec (signup e p n r) w)) = true /\
  storage (exec handleCustomStorageChange (exec (signup e p n r) w)) =
    storage (exec (signup e p n r) w).
Proof.
  intros Hparse Hiso Huuid Hfresh Hw Hok. unfold eval, exec in *.
  destruct (find (same_email e) (db w)) as [v|] eqn:Hf.
  { rewrite (signup_existing e p n r v w Hw Hf) in Hok. discriminate. }
  rewrite (signup_created e p n r w Hw Hf). simpl fst; simpl snd.
  set (w1 := signed_up e p n r w).
  assert (Hw1 : healthy w1) by (subst w1; still_healthy).
  assert (Htok : storage w1 !! "auth_session_token" = Some (uuid (entropy w))).
  { simpl. rewrite lookup_insert_ne by done. apply lookup_insert_eq. }
  assert (Hst : stale w1 = false).
  { unfold stale. simpl. rewrite lookup_insert_eq, Hparse.
    rewrite (proj2 (String.eqb_neq _ _) (Hiso _)). simpl.
    apply Z.ltb_ge. unfold SESSION_EXPIRY_MS. lia. }
  unfold handleCustomStorageChange, isAuthenticated.
  rewrite (loadSession_with_token w1 _ Hw1 Hst Htok Huuid).
  assert (Hfind : find (token_is (uuid (entropy w))) (db w1)
                  = Some (new_identity e p n r w)).
  { simpl. apply find_last.
    - destruct (find (token_is (uuid (entropy w))) (db w)) as [v|] eqn:Hfv;
        [|reflexivity].
      apply find_some in Hfv as [Hin Hv]. apply token_is_spec in Hv.
      now destruct (Hfresh v Hin).
    - unfold token_is. simpl. apply String.eqb_refl. }
  rewrite Hfind. simpl. auto.
Qed.

(** *** Profile update and password change *)

Lemma update_in_keeps {B : Type} (f : AuthUser -> B) (i : Z)
    (p : PartialAuthUser) (d : list AuthUser) :
  (forall v, f (apply_partial p v) = f v) ->
  map f (update_in i p d) = map f d.
Proof.
  intros Hf. unfold update_in. rewrite map_map. apply map_ext.
  intros v. destruct (id v =? i)%Z; [apply Hf | reflexivity].
Qed.

(** [updateProfile].  Without a current user it reports "No user logged
    in" and does nothing.  With a current user whose id is stored (the
    adapter not failing) it succeeds, writes nothing but names and profile
    images (emails, password digests, session tokens and active flags of
    all identities stay), and settles the hook on the record fetched
    again: a stored identity with the user's id. *)
Theorem updateProfile_refreshes
    (w : World) (n img : option string) :
  (currentUser (hook w) = None ->
   updateProfile (profile_fields n img) w =
     (Returned (failed "No user logged in"), w)) /\
  (forall u u0,
     healthy w ->
     currentUser (hook w) = Some u ->
     In u0 (db w) ->
     id u0 = id u ->
     eval (updateProfile (profile_fields n img)) w = Returned ok /\
     map email (db (exec (updateProfile (profile_fields n img)) w)) = map email (db w) /\
     map passwordHash (db (exec (updateProfile (profile_fields n img)) w)) =
       map passwordHash (db w) /\
     map sessionToken (db (exec (updateProfile (profile_fields n img)) w)) =
       map sessionToken (db w) /\
     map isActive (db (exec (updateProfile (profile_fields n img)) w)) =
       map isActive (db w) /\
     storage (exec (updateProfile (profile_fields n img)) w) = storage w /\
     exists u',
       currentUser (hook (exec (updateProfile (profile_fields n img)) w)) = Some u' /\
       In u' (db (exec (updateProfile (profile_fields n img)) w)) /\
       id u' = id u).
Proof.
  split.
  - intros Hcu. unfold updateProfile. run_monad. now rewrite Hcu.
  - intros u u0 Hw Hcu Hin Hid. unfold eval, exec, updateProfile. run_monad.
    rewrite Hcu. simpl.
    rewrite repo_update_healthy by still_healthy. simpl.
    rewrite repo_get_healthy by still_healthy. simpl.
    destruct (find_updated_id (id u) (profile_fields n img) (db w) u0 Hin Hid)
      as (u' & Hfu & Hidu & Hinu).
    rewrite Hfu. simpl.
    split; [reflexivity|].
    repeat (split; [now apply update_in_keeps|]).
    split; [reflexivity|].
    exists u'. auto.
Qed.

Lemma changePassword_wrong_current (w : World) (cur new : string) (u : AuthUser) :
  currentUser (hook w) = Some u ->
  passwordHash u <> sha256_hex cur ->
  changePassword cur new w =
    (Returned (failed "Current password is incorrect"),
     set_hook (mkHook (Some u) false (Some "Current password is incorrect")) w).
Proof.
  intros Hcu Hpw. apply String.eqb_neq in Hpw.
  unfold changePassword. run_monad. rewrite Hcu, Hpw. simpl.
  now rewrite Hcu.
Qed.

(** The guards of [changePassword]: without a current user it reports "No
    user logged in" and does nothing; with a current password whose digest
    is not the one the hook holds it reports "Current password is
    incorrect" without calling the adapter, and identities and session
    store stay as they were. *)
Theorem changePassword_guards (w : World) (cur new : string) :
  (currentUser (hook w) = None ->
   changePassword cur new w = (Returned (failed "No user logged in"), w)) /\
  (forall u,
     currentUser (hook w) = Some u ->
     passwordHash u <> sha256_hex cur ->
     eval (changePassword cur new) w =
       Returned (failed "Current password is incorrect") /\
     db (exec (changePassword cur new) w) = db w /\
     faults (exec (changePassword cur new) w) = faults w /\
     storage (exec (changePassword cur new) w) = storage w /\
     currentUser (hook (exec (changePassword cur new) w)) = Some u).
Proof.
  split.
  - intros Hcu. unfold changePassword. run_monad. now rewrite Hcu.
  - intros u Hcu Hpw. unfold eval, exec.
    rewrite (changePassword_wrong_current w cur new u Hcu Hpw). simpl. auto.
Qed.

(** After [changePassword] the hook keeps its copy of the user.  Hence,
    when the new digest differs from the old one: a second change that
    gives the new password as the current one is refused, a second change
    that gives the old password is accepted, and an [updateProfile] in
    between brings the hook's copy back in step with the stored digest
    (the adapter not failing, the user's record being stored). *)
Theorem changePassword_keeps_hook_copy
    (w : World) (u : AuthUser) (cur new next : string) :
  healthy w ->
  currentUser (hook w) = Some u ->
  In u (db w) ->
  passwordHash u = sha256_hex cur ->
  sha256_hex new <> sha256_hex cur ->
  currentUser (hook (exec (changePassword cur new) w)) = Some u /\
  eval (changePassword new next) (exec (changePassword cur new) w) =
    Returned (failed "Current password is incorrect") /\
  eval (changePassword cur next) (exec (changePassword cur new) w) = Returned ok /\
  forall n img,
    exists u',
      currentUser (hook (exec (updateProfile (profile_fields n img))
                           (exec (changePassword cur new) w))) = Some u' /\
      id u' = id u /\
      passwordHash u' = sha256_hex new.
Proof.
  intros Hw Hcu Hin Hpw Hdiff. unfold eval, exec.
  rewrite (changePassword_accepted cur new u w Hw Hcu Hpw). simpl fst; simpl snd.
  set (w1 := set_hook _ _).
  assert (Hw1 : healthy w1) by (subst w1; still_healthy).
  assert (Hcu1 : currentUser (hook w1) = Some u) by reflexivity.
  split; [reflexivity|]. split.
  { rewrite (changePassword_wrong_current w1 new next u Hcu1); [reflexivity|].
    congruence. }
  split.
  { now rewrite (changePassword_accepted cur next u w1 Hw1 Hcu1 Hpw). }
  intros n img. unfold updateProfile. run_monad.
  rewrite repo_update_healthy by still_healthy. simpl.
  rewrite repo_get_healthy by still_healthy. simpl.
  match goal with
  | |- context [find ?f ?l] => destruct (find f l) as [u'|] eqn:Hfu
  end.
  - simpl. exists u'. split; [reflexivity|].
    apply find_some in Hfu as [Hin' Hid']. apply Z.eqb_eq in Hid'.
    split; [exact Hid'|]. revert Hid'.
    unfold update_in in Hin'.
    apply in_map_iff in Hin' as (v1 & <- & Hin1).
    apply in_map_iff in Hin1 as (v0 & <- & Hin0).
    destruct (id v0 =? id u)%Z eqn:Hid0.
    + change (id (apply_partial (password_fields (sha256_hex new)) v0))
        with (id v0). rewrite Hid0. reflexivity.
    + rewrite Hid0. intros Hid'. apply Z.eqb_neq in Hid0. contradiction.
  - exfalso.
    assert (Hin1 : In (apply_partial (password_fields (sha256_hex new)) u)
                     (update_in (id u) (password_fields (sha256_hex new)) (db w))).
    { unfold update_in. apply in_map_iff. exists u. now rewrite Z.eqb_refl. }
    destruct (find_updated_id (id u) (profile_fields n img) _ _ Hin1 eq_refl)
      as (u' & Hfu' & _).
    simpl in Hfu'. congruence.
Qed.

(** *** Auto-provisioning and session events *)

Lemma initializeAdminUser_returns (w : World) :
  exists r, eval initializeAdminUser w = Returned r.
Proof.
  unfold eval, initializeAdminUser. run_monad.
  destruct (strict_eq _ _); [eexists; reflexivity|].
  destruct (getAdminInfo (env w)) as [info|]; [|eexists; reflexivity].
  unfold repo_list, adapter_call, bind, get.
  destruct (faults w) as [|[msg|] rest] eqn:Hfl; simpl;
    try (eexists; reflexivity).
  - destruct (find _ (db w)) as [u|]; simpl; [|eexists; reflexivity].
    destruct (truthy (sessionToken u)); simpl;
      [|unfold repo_update, adapter_call, bind, modify; simpl; rewrite Hfl];
      eexists; reflexivity.
  - destruct (find _ (db w)) as [u|]; simpl; [|eexists; reflexivity].
    destruct (truthy (sessionToken u)); simpl; [eexists; reflexivity|].
    unfold repo_update, adapter_call, bind, modify; simpl.
    destruct rest as [|[msg|] rest']; simpl; eexists; reflexivity.
Qed.

(** [initializeAdminUser] and a failing adapter.  When the initializer is
    due (flag not set, admin configured) and the adapter throws, on
    [list] or on the [update] that persists a minted token, the error is
    turned into the result [{success: false, error: message}]; the session
    store (the initialized flag with it), the dispatched events and the
    identities are what they were, so the next load tries again. *)
Theorem initializeAdminUser_adapter_failure
    (w : World) (info : AdminInfo) (msg : string) (rest : list (option string)) :
  storage w !! ADMIN_INITIALIZED_KEY <> Some "true" ->
  getAdminInfo (env w) = Some info ->
  (faults w = Some msg :: rest \/
   exists u, faults w = None :: Some msg :: rest /\
             find (same_email (admin_email info)) (db w) = Some u /\
             truthy (sessionToken u) = false) ->
  eval initializeAdminUser w = Returned (mkInit false None (Some msg)) /\
  storage (exec initializeAdminUser w) = storage w /\
  events (exec initializeAdminUser w) = events w /\
  db (exec initializeAdminUser w) = db w.
Proof.
  intros Hflag Hcfg Hcause. unfold eval, exec, initializeAdminUser. run_monad.
  replace (strict_eq (storage w !! ADMIN_INITIALIZED_KEY) "true") with false.
  2:{ unfold strict_eq. destruct (storage w !! ADMIN_INITIALIZED_KEY) as [v|];
        [|reflexivity].
      destruct (String.eqb_spec v "true"); [subst; now destruct Hflag | reflexivity]. }
  rewrite Hcfg. simpl.
  unfold repo_list, adapter_call, bind, get.
  destruct Hcause as [Hfl | (u & Hfl & Hf & Htr)]; rewrite Hfl; simpl.
  - auto.
  - unfold same_email in Hf. rewrite Hf, Htr. simpl.
    unfold repo_update, adapter_call, bind, modify. simpl. auto.
Qed.

(** The guard of [AuthProvider] changes nothing: its effect returns and
    leaves the state [initializeAdminUser] alone would leave, whether
    auto-login is configured or not. *)
Theorem AuthProvider_effect_is_initializer (w : World) :
  eval AuthProvider_effect w = Returned tt /\
  exec AuthProvider_effect w = exec initializeAdminUser w.
Proof.
  destruct (initializeAdminUser_returns w) as (r & Hr).
  unfold eval, exec in *. unfold AuthProvider_effect, hasAdminAutoLogin.
  run_monad.
  destruct (getAdminInfo (env w)) as [info|] eqn:Hcfg.
  - simpl. destruct (initializeAdminUser w) as [o w']. simpl in Hr.
    subst o. auto.
  - simpl. now rewrite (initializeAdminUser_unconfigured w Hcfg).
Qed.

(** [resetAdminInitialization] makes the initializer run again, and the
    second run mints nothing.  After a first run, a reset and a second run
    at time [t], the identities, the random source and the token of the
    session store are what the first run left, the flag is set again, the
    expiry is renewed to [t] + 30 days and nothing else of the storage
    changes; the admin is returned with the same token (the adapter not
    failing, the random source drawing non-empty strings). *)
Theorem reset_then_initialize_again
    (w : World) (info : AdminInfo) (u : AuthUser) (t : Z) :
  uuid (entropy w) <> "" ->
  healthy w ->
  storage w !! ADMIN_INITIALIZED_KEY <> Some "true" ->
  getAdminInfo (env w) = Some info ->
  find (same_email (admin_email info)) (db w) = Some u ->
  storage (exec resetAdminInitialization (exec initializeAdminUser w))
    !! ADMIN_INITIALIZED_KEY = None /\
  db (exec initializeAdminUser
        (set_clock t (exec resetAdminInitialization (exec initializeAdminUser w)))) =
    db (exec initializeAdminUser w) /\
  storage (exec initializeAdminUser
             (set_clock t
                (exec resetAdminInitialization (exec initializeAdminUser w)))) =
    <["auth_session_expiry" := toISOString (t + 30 * 24 * 60 * 60 * 1000)]>
      (storage (exec initializeAdminUser w)) /\
  storage (exec initializeAdminUser
             (set_clock t
                (exec resetAdminInitialization (exec initializeAdminUser w))))
    !! AUTH_SESSION_TOKEN = Some (admin_token u w) /\
  entropy (exec initializeAdminUser
             (set_clock t
                (exec resetAdminInitialization (exec initializeAdminUser w)))) =
    entropy (exec initializeAdminUser w) /\
  exists u1,
    eval initializeAdminUser
      (set_clock t (exec resetAdminInitialization (exec initializeAdminUser w))) =
      Returned (mkInit true (Some u1) None) /\
    id u1 = id u /\
    sessionToken u1 = Some (admin_token u w).
Proof.
  intros Huuid Hw Hflag Hcfg Hf.
  assert (Hrun : exec initializeAdminUser w =
                 snd (initializeAdminUser w)) by reflexivity.
  rewrite (initializeAdminUser_matched w info u Hw Hflag Hcfg Hf) in Hrun.
  simpl snd in Hrun. rewrite Hrun. clear Hrun.
  set (w1 := set_events _ _).
  change (exec resetAdminInitialization w1)
    with (set_storage (delete ADMIN_INITIALIZED_KEY (storage w1)) w1).
  set (w2 := set_clock t (set_storage _ w1)).
  assert (Htrue : truthy (Some (admin_token u w)) = true).
  { unfold admin_token. destruct (truthy (sessionToken u)) eqn:Htr.
    - destruct (sessionToken u); [exact Htr | discriminate].
    - simpl. now rewrite (proj2 (String.eqb_neq _ _) Huuid). }
  assert (Hu1 : exists u1, find (same_email (admin_email info)) (db w2) = Some u1 /\
                           id u1 = id u /\
                           sessionToken u1 = Some (admin_token u w)).
  { unfold admin_token in *. subst w2 w1. simpl db.
    destruct (truthy (sessionToken u)) eqn:Htr; simpl db.
    - exists u. repeat split; auto.
      destruct (sessionToken u); [reflexivity | discriminate].
    - unfold update_in.
      rewrite (find_map_same_email _
                 (fun v => if (id v =? id u)%Z
                           then apply_partial
                                  (session_fields (uuid (entropy w))
                                     (toISOString (clock w))) v
                           else v)).
      2:{ intros v. now destruct (id v =? id u)%Z. }
      rewrite Hf. simpl. rewrite Z.eqb_refl. eexists. repeat split. }
  destruct Hu1 as (u1 & Hf1 & Hid1 & Htok1).
  assert (Hw2 : healthy w2).
  { subst w2 w1. destruct (truthy (sessionToken u)); still_healthy. }
  assert (Hflag2 : storage w2 !! ADMIN_INITIALIZED_KEY <> Some "true").
  { subst w2. simpl. now rewrite lookup_delete_eq. }
  assert (Hcfg2 : getAdminInfo (env w2) = Some info).
  { subst w2 w1. simpl. now destruct (truthy (sessionToken u)). }
  split.
  { simpl. apply lookup_delete_eq. }
  unfold eval, exec.
  rewrite (initializeAdminUser_matched w2 info u1 Hw2 Hflag2 Hcfg2 Hf1).
  assert (Htr1 : truthy (sessionToken u1) = true) by now rewrite Htok1.
  rewrite Htr1. simpl fst; simpl snd.
  assert (Hadm : admin_token u1 w2 = admin_token u w).
  { unfold admin_token at 1. now rewrite Htr1, Htok1. }
  rewrite Hadm.
  assert (Hclock2 : clock w2 = t) by reflexivity.
  split; [reflexivity|]. split.
  { subst w2 w1. simpl.
    apply map_eq. intros k.
    destruct (decide (k = ADMIN_INITIALIZED_KEY)) as [->|Hk1];
      [|destruct (decide (k = "auth_session_expiry")) as [->|Hk2];
        [|destruct (decide (k = AUTH_SESSION_TOKEN)) as [->|Hk3]]];
      repeat first
        [ rewrite lookup_insert_eq
        | rewrite lookup_insert_ne by (done || congruence)
        | rewrite lookup_delete_ne by (done || congruence) ];
      reflexivity. }
  split.
  { simpl. rewrite lookup_insert_ne by done. rewrite lookup_insert_ne by done.
    apply lookup_insert_eq. }
  split; [reflexivity|].
  exists u1. auto.
Qed.

(** The "storage" listener.  An event for the token or the expiry key runs
    the bootstrap, so once the token is gone (another tab logged out) this
    tab settles unauthenticated.  An event for any other key, and the event
    with a null key that clearing the whole storage sends, is ignored: the
    current user stays, even though the token is gone. *)
Theorem handleStorageChange_logs_out (w : World) (key : option string) :
  truthy (storage w !! "auth_session_token") = false ->
  (key = Some "auth_session_token" \/ key = Some "auth_session_expiry" ->
   isAuthenticated (exec (handleStorageChange key) w) = false) /\
  (key <> Some "auth_session_token" -> key <> Some "auth_session_expiry" ->
   handleStorageChange key w = (Returned tt, w)).
Proof.
  intros Htr. split.
  - intros [-> | ->]; unfold handleStorageChange; simpl;
      apply (loadSession_tokenless w Htr).
  - intros Hk1 Hk2. unfold handleStorageChange, strict_eq.
    destruct key as [k|]; [|reflexivity].
    destruct (String.eqb_spec k "auth_session_token") as [->|_]; [congruence|].
    destruct (String.eqb_spec k "auth_session_expiry") as [->|_]; [congruence|].
    reflexivity.
Qed.

End HookProperties.

(** ** Properties of the task list *)

Section TodoProperties.
Import TodoApp.
Context {platform_of_app : Platform}.

Lemma insert_by_order_perm (t : Todo) (l : list Todo) :
  Permutation (insert_by_order t l) (t :: l).
Proof.
  induction l as [|x r IH]; simpl; [reflexivity|].
  destruct (order t <=? order x)%Z; [reflexivity|].
  rewrite IH. apply perm_swap.
Qed.

Lemma sort_by_order_perm (l : list Todo) : Permutation (sort_by_order l) l.
Proof.
  induction l as [|t l IH]; simpl; [reflexivity|].
  rewrite insert_by_order_perm. now apply perm_skip.
Qed.

Lemma insert_by_order_sorted (t : Todo) (l : list Todo) :
  Sorted by_order l -> Sorted by_order (insert_by_order t l).
Proof.
  induction l as [|x r IH]; simpl; intros Hs.
  - repeat constructor.
  - destruct (order t <=? order x)%Z eqn:Hle.
    + constructor; [exact Hs|]. constructor. now apply Z.leb_le.
    + apply Sorted_inv in Hs as [Hr Hhd].
      constructor; [now apply IH|].
      apply Z.leb_gt in Hle.
      destruct r as [|y r']; simpl.
      * constructor. unfold by_order. lia.
      * destruct (order t <=? order y)%Z.
        -- constructor. unfold by_order. lia.
        -- constructor. now apply HdRel_inv in Hhd.
Qed.

Lemma sort_by_order_sorted (l : list Todo) : Sorted by_order (sort_by_order l).
Proof.
  induction l as [|t l IH]; simpl; [constructor|].
  now apply insert_by_order_sorted.
Qed.

Lemma sort_by_order_of_sorted (l : list Todo) :
  Sorted by_order l -> sort_by_order l = l.
Proof.
  induction l as [|t l IH]; simpl; intros Hs; [reflexivity|].
  apply Sorted_inv in Hs as [Hl Hhd]. rewrite (IH Hl).
  destruct l as [|x r]; simpl; [reflexivity|].
  apply HdRel_inv in Hhd. unfold by_order in Hhd.
  apply Z.leb_le in Hhd. now rewrite Hhd.
Qed.

Lemma filteredTodos_In (s : App) (t : Todo) :
  In t (filteredTodos s) <-> In t (todos s) /\ visible (filters s) t = true.
Proof.
  unfold filteredTodos. rewrite <- filter_In. split; intros Hin.
  - eapply Permutation_in; [apply sort_by_order_perm | exact Hin].
  - eapply Permutation_in; [symmetry; apply sort_by_order_perm | exact Hin].
Qed.

(** The view: [filteredTodos] shows exactly the todos of the list that
    pass the filter, each as often as the list has it, in non-decreasing
    [order]. *)
Theorem filteredTodos_sound_complete (s : App) :
  (forall t, In t (filteredTodos s) <->
             In t (todos s) /\ visible (filters s) t = true) /\
  Permutation (filteredTodos s) (List.filter (visible (filters s)) (todos s)) /\
  Sorted by_order (filteredTodos s).
Proof.
  split; [|split].
  - intros t. apply filteredTodos_In.
  - apply sort_by_order_perm.
  - apply sort_by_order_sorted.
Qed.

Lemma visible_default (t : Todo) : visible (mkFilters all None "") t = true.
Proof. reflexivity. Qed.

Lemma filter_all {A} (f : A -> bool) (l : list A) :
  (forall x, In x l -> f x = true) -> List.filter f l = l.
Proof.
  induction l as [|x l IH]; simpl; intros Hf; [reflexivity|].
  rewrite (Hf x) by auto. f_equal. apply IH. auto.
Qed.

(** Resetting the three facets of [FilterBar] ('All', 'All Priorities', an
    empty search) hides nothing: the view is a rearrangement of the whole
    list, and it is the list itself when the list is already in
    non-decreasing [order]. *)
Theorem reset_filters_show_all (s : App) :
  Permutation
    (filteredTodos (onSearchChange "" (onPriorityClick None (onStatusClick all s))))
    (todos s) /\
  (Sorted by_order (todos s) ->
   filteredTodos (onSearchChange "" (onPriorityClick None (onStatusClick all s))) =
     todos s).
Proof.
  unfold filteredTodos. simpl.
  rewrite (filter_all _ (todos s)) by (intros; apply visible_default).
  split; [apply sort_by_order_perm | apply sort_by_order_of_sorted].
Qed.

(** The search is case-insensitive in the query: two non-empty queries
    with the same lowercase form give the same view. *)
Theorem search_ignores_case (s : App) (q q' : string) :
  q <> "" -> q' <> "" ->
  toLowerCase q = toLowerCase q' ->
  filteredTodos (onSearchChange q s) = filteredTodos (onSearchChange q' s).
Proof.
  intros Hq Hq' Heq. unfold filteredTodos. simpl. f_equal.
  apply filter_ext. intros t. unfold visible. simpl.
  apply String.eqb_neq in Hq, Hq'. now rewrite Hq, Hq', Heq.
Qed.

Lemma seq_snoc (k : nat) : seq 0 (S k) = (seq 0 k ++ [k])%list.
Proof. now rewrite seq_S. Qed.

Lemma sorted_snoc (l : list Todo) (t : Todo) :
  Sorted by_order l ->
  (forall x, In x l -> (order x <= order t)%Z) ->
  Sorted by_order (l ++ [t])%list.
Proof.
  induction l as [|a l IH]; simpl; intros Hs Hle.
  - repeat constructor.
  - apply Sorted_inv in Hs as [Hl Hhd].
    constructor; [apply IH; auto|].
    destruct l as [|b l']; simpl.
    + constructor. apply Hle. now left.
    + constructor. now apply HdRel_inv in Hhd.
Qed.

(** Todos added one after the other to the empty list get the orders 0, 1,
    2, ... and the unfiltered view shows them in the order they were
    added. *)
Theorem added_in_sequence (l : list NewTodo) (t0 : Z) :
  map order (todos (fold_left (fun s n => addTodo n s) l (initial t0))) =
    map Z.of_nat (seq 0 (List.length l)) /\
  map n_title l =
    map title (filteredTodos (fold_left (fun s n => addTodo n s) l (initial t0))).
Proof.
  assert (Hgen : forall s,
            filters s = mkFilters all None "" ->
            map order (todos s) = map Z.of_nat (seq 0 (List.length (todos s))) ->
            Sorted by_order (todos s) ->
            let s' := fold_left (fun s n => addTodo n s) l s in
            filters s' = mkFilters all None "" /\
            map order (todos s') = map Z.of_nat (seq 0 (List.length (todos s'))) /\
            Sorted by_order (todos s') /\
            List.length (todos s') = (List.length (todos s) + List.length l)%nat /\
            map title (todos s') = (map title (todos s) ++ map n_title l)%list).
  { induction l as [|n l IH]; intros s Hfl Hord Hsorted; simpl.
    - rewrite Nat.add_0_r, app_nil_r. auto.
    - destruct (IH (addTodo n s)) as (Hf' & Ho' & Hs' & Hlen' & Ht').
      + exact Hfl.
      + simpl. rewrite map_app, length_app. simpl.
        rewrite Nat.add_1_r, seq_snoc, map_app, Hord. reflexivity.
      + simpl. apply sorted_snoc; [exact Hsorted|].
        intros x Hx. simpl.
        assert (Hin : In (order x) (map order (todos s))) by now apply in_map.
        rewrite Hord in Hin. apply in_map_iff in Hin as (k & <- & Hk).
        apply in_seq in Hk. lia.
      + split; [exact Hf'|]. split; [exact Ho'|]. split; [exact Hs'|].
        split.
        * rewrite Hlen'. simpl. rewrite length_app. simpl. lia.
        * rewrite Ht'. simpl. rewrite map_app, <- app_assoc. reflexivity. }
  destruct (Hgen (initial t0) eq_refl eq_refl (Sorted_nil _))
    as (Hf & Ho & Hs & Hlen & Ht).
  simpl in Hlen, Ht. split.
  - now rewrite Ho, Hlen.
  - unfold filteredTodos. rewrite Hf.
    rewrite filter_all by (intros; apply visible_default).
    rewrite (sort_by_order_of_sorted _ Hs). now rewrite Ht.
Qed.

(** [handleBulkComplete] completes the selected todos, shown or hidden by
    the filter, and only them: ids, orders and the length of the list stay,
    a todo whose id is not selected is kept as it is, every todo whose id
    is selected ends up completed, the selection is emptied; hence no todo
    that was selected remains in the view of the active ones. *)
Theorem handleBulkComplete_completes_selection (s : App) :
  map id (todos (handleBulkComplete s)) = map id (todos s) /\
  map order (todos (handleBulkComplete s)) = map order (todos s) /\
  (forall t, In t (todos s) -> id t ∉ selectedIds s ->
             In t (todos (handleBulkComplete s))) /\
  (forall t, In t (todos (handleBulkComplete s)) -> id t ∈ selectedIds s ->
             completed t = true) /\
  selectedIds (handleBulkComplete s) = ∅ /\
  (forall t, In t (filteredTodos (onStatusClick active (handleBulkComplete s))) ->
             id t ∉ selectedIds s).
Proof.
  assert (Hcompleted : forall t, In t (todos (handleBulkComplete s)) ->
                                 id t ∈ selectedIds s -> completed t = true).
  { intros t Hin Hsel. simpl in Hin.
    apply in_map_iff in Hin as (t0 & <- & Hin0).
    destruct (bool_decide (id t0 ∈ selectedIds s)) eqn:Hd; [reflexivity|].
    apply bool_decide_eq_false in Hd. contradiction. }
  split; [|split; [|split; [|split; [|split]]]].
  - simpl. rewrite map_map. apply map_ext. intros t.
    now destruct (bool_decide _).
  - simpl. rewrite map_map. apply map_ext. intros t.
    now destruct (bool_decide _).
  - intros t Hin Hsel. simpl. apply in_map_iff. exists t. split; [|exact Hin].
    now rewrite (bool_decide_eq_false_2 _ Hsel).
  - exact Hcompleted.
  - reflexivity.
  - intros t Hin Hsel.
    apply filteredTodos_In in Hin as [Hin Hvis].
    change (todos (onStatusClick active (handleBulkComplete s)))
      with (todos (handleBulkComplete s)) in Hin.
    unfold visible in Hvis. simpl in Hvis.
    rewrite (Hcompleted t Hin Hsel) in Hvis. discriminate.
Qed.

(** [handleBulkDelete] keeps exactly the todos whose id is not selected,
    in their order, and empties the selection; with nothing selected the
    list is unchanged. *)
Theorem handleBulkDelete_removes_selection (s : App) :
  (forall t, In t (todos (handleBulkDelete s)) <->
             In t (todos s) /\ id t ∉ selectedIds s) /\
  selectedIds (handleBulkDelete s) = ∅ /\
  (selectedIds s = ∅ -> todos (handleBulkDelete s) = todos s).
Proof.
  split; [|split].
  - intros t. simpl. rewrite filter_In.
    rewrite negb_true_iff, bool_decide_eq_false. reflexivity.
  - reflexivity.
  - intros Hempty. simpl. apply filter_all. intros t _.
    rewrite Hempty. reflexivity.
Qed.

Lemma deleteTodo_In (i : string) (s : App) (t : Todo) :
  In t (todos (deleteTodo i s)) <-> In t (todos s) /\ id t <> i.
Proof.
  simpl. rewrite filter_In, negb_true_iff, String.eqb_neq. reflexivity.
Qed.

(** [deleteTodo] removes every todo with the given id and nothing else,
    and takes the id out of the selection while the other selected ids
    stay; for an id no todo has, the list is unchanged. *)
Theorem deleteTodo_removes (i : string) (s : App) :
  (forall t, In t (todos (deleteTodo i s)) <-> In t (todos s) /\ id t <> i) /\
  (i ∉ selectedIds (deleteTodo i s)) /\
  (forall j, j <> i -> (j ∈ selectedIds (deleteTodo i s) <-> j ∈ selectedIds s)) /\
  ((forall t, In t (todos s) -> id t <> i) -> todos (deleteTodo i s) = todos s).
Proof.
  split; [|split; [|split]].
  - intros t. apply deleteTodo_In.
  - simpl. rewrite elem_of_difference, elem_of_singleton. tauto.
  - intros j Hj. simpl. rewrite elem_of_difference, elem_of_singleton. tauto.
  - intros Hnone. simpl. apply filter_all. intros t Hin.
    apply negb_true_iff, String.eqb_neq. auto.
Qed.

(** Selecting one todo and deleting the selection is [deleteTodo]: from an
    empty selection, [handleSelect id true] followed by [handleBulkDelete]
    leaves the list and the selection [deleteTodo id] leaves. *)
Theorem select_then_bulk_delete (i : string) (s : App) :
  selectedIds s = ∅ ->
  todos (handleBulkDelete (handleSelect i true s)) = todos (deleteTodo i s) /\
  selectedIds (handleBulkDelete (handleSelect i true s)) =
    selectedIds (deleteTodo i s).
Proof.
  intros Hempty. split.
  - simpl. apply filter_ext. intros t. f_equal. rewrite Hempty.
    destruct (String.eqb_spec (id t) i) as [Heq|Hne].
    + apply bool_decide_eq_true.
      rewrite elem_of_union, elem_of_singleton. now left.
    + apply bool_decide_eq_false.
      rewrite elem_of_union, elem_of_singleton, elem_of_empty. tauto.
  - simpl. rewrite Hempty. apply set_eq. intros x.
    rewrite elem_of_difference, elem_of_empty. tauto.
Qed.

(** [handleSelect]: selecting an id that is not selected and deselecting
    it restores the selection; selecting it raises the count [BulkActions]
    shows by one, and selecting it again changes nothing. *)
Theorem handleSelect_round_trip (i : string) (s : App) :
  i ∉ selectedIds s ->
  selectedIds (handleSelect i false (handleSelect i true s)) = selectedIds s /\
  size (selectedIds (handleSelect i true s)) = S (size (selectedIds s)) /\
  selectedIds (handleSelect i true (handleSelect i true s)) =
    selectedIds (handleSelect i true s).
Proof.
  intros Hnot. simpl. split; [|split].
  - apply set_eq. intros x.
    rewrite elem_of_difference, elem_of_union, elem_of_singleton.
    split; [tauto|]. intros Hx. split; [now right|]. now intros ->.
  - rewrite size_union by now apply disjoint_singleton_l.
    now rewrite size_singleton.
  - apply set_eq. intros x. rewrite !elem_of_union. tauto.
Qed.

(** The selection stays within the list: if every selected id is the id
    of a todo, this still holds after [deleteTodo], [handleBulkDelete],
    [handleBulkComplete], [addTodo], and after [handleSelect] on a todo of
    the list. *)
Theorem selection_stays_valid (s : App) :
  selection_valid s ->
  (forall i, selection_valid (deleteTodo i s)) /\
  selection_valid (handleBulkDelete s) /\
  selection_valid (handleBulkComplete s) /\
  (forall n, selection_valid (addTodo n s)) /\
  (forall t b, In t (todos s) -> selection_valid (handleSelect (id t) b s)).
Proof.
  intros Hvalid. split; [|split; [|split; [|split]]].
  - intros i j Hj. simpl in Hj.
    apply elem_of_difference in Hj as [Hj Hne].
    destruct (Hvalid j Hj) as (t & Hin & Hid). exists t. split; [|exact Hid].
    apply deleteTodo_In. split; [exact Hin|].
    rewrite Hid. intros ->. apply Hne. now apply elem_of_singleton.
  - intros j Hj. simpl in Hj. now apply elem_of_empty in Hj.
  - intros j Hj. simpl in Hj. now apply elem_of_empty in Hj.
  - intros n j Hj. simpl in Hj.
    destruct (Hvalid j Hj) as (t & Hin & Hid). exists t. split; [|exact Hid].
    simpl. apply in_or_app. now left.
  - intros t b Hin j Hj. simpl in Hj. destruct b.
    + apply elem_of_union in Hj as [Hj|Hj].
      * apply elem_of_singleton in Hj. subst j. exists t. auto.
      * exact (Hvalid j Hj).
    + apply elem_of_difference in Hj as [Hj _]. exact (Hvalid j Hj).
Qed.

(** [updateTodo]: for an id no todo has, the list is unchanged; marking a
    todo completed takes every todo with that id out of the view of the
    active ones and leaves the other todos of the list as they are. *)
Theorem updateTodo_completed_hides (i : string) (s : App) :
  (forall u, (forall t, In t (todos s) -> id t <> i) ->
             todos (updateTodo i u s) = todos s) /\
  (forall t, In t (filteredTodos (onStatusClick active (updateTodo i mark_completed s))) ->
             id t <> i) /\
  (forall t, In t (todos s) -> id t <> i ->
             In t (todos (updateTodo i mark_completed s))).
Proof.
  split; [|split].
  - intros u Hnone. simpl. rewrite <- (map_id (todos s)) at 2.
    apply map_ext_in. intros t Hin.
    now rewrite (proj2 (String.eqb_neq _ _) (Hnone t Hin)).
  - intros t Hin Hid.
    apply filteredTodos_In in Hin as [Hin Hvis].
    simpl in Hin. apply in_map_iff in Hin as (t0 & <- & Hin0).
    destruct (String.eqb_spec (id t0) i) as [Heq|Hne].
    + unfold visible in Hvis. simpl in Hvis. discriminate.
    + contradiction.
  - intros t Hin Hne. simpl. apply in_map_iff. exists t. split; [|exact Hin].
    now rewrite (proj2 (String.eqb_neq _ _) Hne).
Qed.

End TodoProperties.

(** ** The further properties on the reference platform *)

Section MoreOnReference.
Import Reference.
#[local] Existing Instance platform.

Lemma parse_print_ms (z : Z) : parse_ms (print_ms z) = Some z.
Proof.
  unfold parse_ms, print_ms. rewrite NilZero.isi.
  - simpl. f_equal. apply DecimalZ.of_to.
  - destruct z; simpl; try discriminate. intros [= Hp].
    now apply DecimalPos.Unsigned.to_uint_nonnil in Hp.
  - destruct z; simpl; try discriminate. intros [= Hp].
    now apply DecimalPos.Unsigned.to_uint_nonnil in Hp.
Qed.

Lemma print_ms_nonempty (z : Z) : print_ms z <> "".
Proof.
  intros Hs. pose proof (parse_print_ms z) as Hr. rewrite Hs in Hr. discriminate.
Qed.

Lemma healthy_reference d s cu : healthy (world d s cu).
Proof. constructor. Qed.

Lemma unique_emails_alice_bob : unique_emails [alice; bob].
Proof.
  unfold unique_emails. simpl.
  repeat constructor; simpl; intuition discriminate.
Qed.

Lemma loadSession_idempotent_witness :
  db (exec loadSession (exec loadSession returning_world)) =
    db (exec loadSession returning_world) /\
  storage (exec loadSession (exec loadSession returning_world)) =
    storage (exec loadSession returning_world) /\
  currentUser (hook (exec loadSession (exec loadSession returning_world))) =
    currentUser (hook (exec loadSession returning_world)).
Proof. apply (loadSession_idempotent returning_world). constructor. Defined.

Lemma loadSession_adapter_failure_witness :
  eval loadSession failing_world = Returned tt /\
  hook (exec loadSession failing_world) =
    mkHook (Some alice) false (Some "Failed to load session") /\
  storage (exec loadSession failing_world) = storage failing_world /\
  db (exec loadSession failing_world) = db failing_world.
Proof.
  apply (loadSession_adapter_failure failing_world "tok-a" "repository error" []);
    [reflexivity | reflexivity | reflexivity | discriminate].
Defined.

Lemma loadSession_needs_token_witness :
  eval loadSession blank_world = Returned tt /\
  isAuthenticated (exec loadSession blank_world) = false /\
  faults (exec loadSession blank_world) = faults blank_world /\
  db (exec loadSession blank_world) = db blank_world.
Proof. apply (loadSession_needs_token blank_world). reflexivity. Defined.


Lemma login_session_lifetime_witness :
  (exists v,
     currentUser (hook (exec loadSession
                          (set_clock 2592001000
                             (exec (login "a@x.com" "pw") fresh_world)))) = Some v /\
     sessionToken v = Some "uuid-0") /\
  isAuthenticated (exec loadSession
                     (set_clock 2592001001
                        (exec (login "a@x.com" "pw") fresh_world))) = false.
Proof.
  split.
  - destruct (proj1 (@login_session_lifetime platform fresh_world "a@x.com" "pw"
                       2592001000 parse_print_ms print_ms_nonempty
                       ltac:(discriminate) ltac:(constructor) eq_refl))
      as (v & Hcu & Hv & _).
    + reflexivity.
    + exists v. auto.
  - apply (proj2 (@login_session_lifetime platform fresh_world "a@x.com" "pw"
                    2592001001 parse_print_ms print_ms_nonempty
                    ltac:(discriminate) ltac:(constructor) eq_refl)).
    reflexivity.
Defined.

Lemma login_revokes_previous_token_witness :
  eval (login "a@x.com" "pw") fresh_world = Returned ok /\
  storage (exec (login "a@x.com" "pw") fresh_world) !! "auth_session_token" =
    Some "uuid-0" /\
  forall v, In v (db (exec (login "a@x.com" "pw") fresh_world)) ->
            sessionToken v <> Some "tok-a".
Proof.
  destruct (login_revokes_previous_token fresh_world "a@x.com" "pw" alice "tok-a")
    as (Hok & Htok & Hdb);
    [constructor | reflexivity | reflexivity | reflexivity | discriminate | |].
  - intros v [<-|[<-|[]]]; [reflexivity | discriminate].
  - split; [exact Hok|]. split; [exact Htok | exact Hdb].
Defined.

Lemma login_update_failure_witness :
  eval (login "a@x.com" "pw") half_failing_world =
    Returned (failed "repository error") /\
  storage (exec (login "a@x.com" "pw") half_failing_world) =
    storage half_failing_world /\
  db (exec (login "a@x.com" "pw") half_failing_world) = db half_failing_world /\
  entropy (exec (login "a@x.com" "pw") half_failing_world) = 1%nat.
Proof.
  destruct (login_update_failure half_failing_world "a@x.com" "pw"
              "repository error" alice [])
    as (Hres & Hst & _ & Hdb & Hent & _); try reflexivity.
  auto.
Defined.

Lemma logout_token_revocation_witness :
  (forall v, In v (db (exec logout alice_world)) -> sessionToken v <> Some "tok-a") /\
  db (exec logout failing_world) = db failing_world.
Proof.
  split.
  - apply (proj1 (logout_token_revocation alice_world alice "tok-a" eq_refl));
      [constructor | discriminate |].
    intros v [<-|[<-|[]]]; [reflexivity | discriminate].
  - apply (proj2 (logout_token_revocation failing_world alice "tok-a" eq_refl)
             "repository error" []).
    reflexivity.
Defined.

Lemma signup_keeps_emails_unique_witness :
  unique_emails (db (exec (signup "C@x.com" "pw" "C" None) fresh_world)).
Proof.
  apply (@signup_keeps_emails_unique platform fresh_world "C@x.com" "pw" "C" None
           lower_idempotent);
    [constructor | exact unique_emails_alice_bob].
Defined.

Lemma signup_reload_keeps_user_witness :
  isAuthenticated (exec handleCustomStorageChange
                     (exec (signup "c@x.com" "pw" "C" None) fresh_world)) = true /\
  storage (exec handleCustomStorageChange
             (exec (signup "c@x.com" "pw" "C" None) fresh_world)) =
    storage (exec (signup "c@x.com" "pw" "C" None) fresh_world).
Proof.
  destruct (@signup_reload_keeps_user platform fresh_world "c@x.com" "pw" "C" None
              parse_print_ms print_ms_nonempty)
    as (_ & _ & Hauth & Hst).
  - discriminate.
  - intros v [<-|[<-|[]]]; discriminate.
  - constructor.
  - reflexivity.
  - auto.
Defined.

Lemma updateProfile_refreshes_witness :
  updateProfile (profile_fields (Some "Alice") None) fresh_world =
    (Returned (failed "No user logged in"), fresh_world) /\
  eval (updateProfile (profile_fields (Some "Alice") None)) alice_world =
    Returned ok /\
  exists u',
    currentUser (hook (exec (updateProfile (profile_fields (Some "Alice") None))
                         alice_world)) = Some u' /\
    id u' = 1.
Proof.
  split.
  - apply (proj1 (updateProfile_refreshes fresh_world (Some "Alice") None)).
    reflexivity.
  - destruct (proj2 (updateProfile_refreshes alice_world (Some "Alice") None)
                alice alice)
      as (Hok & _ & _ & _ & _ & _ & u' & Hcu & _ & Hid).
    + constructor.
    + reflexivity.
    + simpl; auto.
    + reflexivity.
    + split; [exact Hok|]. exists u'. auto.
Defined.

Lemma changePassword_guards_witness :
  changePassword "pw" "pw2" fresh_world =
    (Returned (failed "No user logged in"), fresh_world) /\
  eval (changePassword "guess" "pw2") alice_world =
    Returned (failed "Current password is incorrect") /\
  db (exec (changePassword "guess" "pw2") alice_world) = db alice_world.
Proof.
  split.
  - apply (proj1 (changePassword_guards fresh_world "pw" "pw2")). reflexivity.
  - destruct (proj2 (changePassword_guards alice_world "guess" "pw2") alice)
      as (Hres & Hdb & _); [reflexivity | discriminate | auto].
Defined.

Lemma changePassword_keeps_hook_copy_witness :
  currentUser (hook (exec (changePassword "pw" "pw2") alice_world)) = Some alice /\
  eval (changePassword "pw2" "pw3") (exec (changePassword "pw" "pw2") alice_world) =
    Returned (failed "Current password is incorrect") /\
  eval (changePassword "pw" "pw3") (exec (changePassword "pw" "pw2") alice_world) =
    Returned ok.
Proof.
  destruct (changePassword_keeps_hook_copy alice_world alice "pw" "pw2" "pw3")
    as (Hcu & Hnew & Hold & _).
  - constructor.
  - reflexivity.
  - simpl; auto.
  - reflexivity.
  - discriminate.
  - auto.
Defined.

Lemma initializeAdminUser_adapter_failure_witness :
  (eval initializeAdminUser admin_failing_world =
     Returned (mkInit false None (Some "repository error")) /\
   storage (exec initializeAdminUser admin_failing_world) =
     storage admin_failing_world) /\
  (eval initializeAdminUser admin_half_failing_world =
     Returned (mkInit false None (Some "repository error")) /\
   db (exec initializeAdminUser admin_half_failing_world) =
     db admin_half_failing_world).
Proof.
  split.
  - destruct (initializeAdminUser_adapter_failure admin_failing_world
                (mkAdminInfo "Root" "root@x.com") "repository error" [])
      as (Hres & Hst & _).
    + discriminate.
    + reflexivity.
    + now left.
    + auto.
  - destruct (initializeAdminUser_adapter_failure admin_half_failing_world
                (mkAdminInfo "Root" "root@x.com") "repository error" [])
      as (Hres & _ & _ & Hdb).
    + discriminate.
    + reflexivity.
    + right. exists root. repeat split.
    + auto.
Defined.

Lemma reset_then_initialize_again_witness :
  db (exec initializeAdminUser
        (set_clock 2000
           (exec resetAdminInitialization (exec initializeAdminUser admin_world)))) =
    db (exec initializeAdminUser admin_world) /\
  storage (exec initializeAdminUser
             (set_clock 2000
                (exec resetAdminInitialization
                   (exec initializeAdminUser admin_world))))
    !! "auth_session_expiry" = Some "2592002000" /\
  storage (exec initializeAdminUser
             (set_clock 2000
                (exec resetAdminInitialization
                   (exec initializeAdminUser admin_world))))
    !! "auth_session_token" = Some "uuid-0".
Proof.
  destruct (reset_then_initialize_again admin_world
              (mkAdminInfo "Root" "root@x.com") root 2000)
    as (_ & Hdb & Hst & Htok & _).
  - discriminate.
  - constructor.
  - discriminate.
  - reflexivity.
  - reflexivity.
  - split; [exact Hdb|]. split; [|exact Htok].
    rewrite Hst. apply lookup_insert_eq.
Defined.

Lemma handleStorageChange_logs_out_witness :
  isAuthenticated (exec (handleStorageChange (Some "auth_session_token"))
                     orphaned_tab) = false /\
  handleStorageChange None orphaned_tab = (Returned tt, orphaned_tab).
Proof.
  split.
  - apply (proj1 (handleStorageChange_logs_out orphaned_tab
                    (Some "auth_session_token") eq_refl)).
    now left.
  - apply (proj2 (handleStorageChange_logs_out orphaned_tab None eq_refl));
      discriminate.
Defined.

Lemma reset_filters_show_all_witness :
  TodoApp.filteredTodos
    (TodoApp.onSearchChange ""
       (TodoApp.onPriorityClick None (TodoApp.onStatusClick TodoApp.all desk))) =
    [report; milk; call].
Proof.
  apply (proj2 (reset_filters_show_all desk)).
  repeat constructor; unfold TodoApp.by_order; simpl; lia.
Defined.

Lemma search_ignores_case_witness :
  TodoApp.filteredTodos (TodoApp.onSearchChange "REPORT" desk) =
    TodoApp.filteredTodos (TodoApp.onSearchChange "report" desk).
Proof.
  apply (search_ignores_case desk "REPORT" "report");
    [discriminate | discriminate | reflexivity].
Defined.

Lemma handleBulkDelete_removes_selection_witness :
  TodoApp.todos (TodoApp.handleBulkDelete clean_desk) = TodoApp.todos clean_desk.
Proof.
  apply (proj2 (proj2 (handleBulkDelete_removes_selection clean_desk))).
  reflexivity.
Defined.

Lemma deleteTodo_removes_witness :
  TodoApp.todos (TodoApp.deleteTodo "t9" desk) = TodoApp.todos desk.
Proof.
  apply (proj2 (proj2 (proj2 (deleteTodo_removes "t9" desk)))).
  intros t [<-|[<-|[<-|[]]]]; discriminate.
Defined.

Lemma select_then_bulk_delete_witness :
  TodoApp.todos (TodoApp.handleBulkDelete (TodoApp.handleSelect "t2" true clean_desk)) =
    TodoApp.todos (TodoApp.deleteTodo "t2" clean_desk) /\
  TodoApp.selectedIds
    (TodoApp.handleBulkDelete (TodoApp.handleSelect "t2" true clean_desk)) =
    TodoApp.selectedIds (TodoApp.deleteTodo "t2" clean_desk).
Proof. apply (select_then_bulk_delete "t2" clean_desk). reflexivity. Defined.

Lemma handleSelect_round_trip_witness :
  TodoApp.selectedIds
    (TodoApp.handleSelect "t2" false (TodoApp.handleSelect "t2" true desk)) =
    TodoApp.selectedIds desk /\
  size (TodoApp.selectedIds (TodoApp.handleSelect "t2" true desk)) =
    S (size (TodoApp.selectedIds desk)) /\
  TodoApp.selectedIds
    (TodoApp.handleSelect "t2" true (TodoApp.handleSelect "t2" true desk)) =
    TodoApp.selectedIds (TodoApp.handleSelect "t2" true desk).
Proof.
  apply (handleSelect_round_trip "t2" desk).
  simpl. rewrite elem_of_singleton. discriminate.
Defined.

Lemma selection_stays_valid_witness :
  TodoApp.selection_valid (TodoApp.deleteTodo "t1" desk) /\
  TodoApp.selection_valid (TodoApp.handleBulkComplete desk).
Proof.
  destruct (selection_stays_valid desk) as (Hdel & _ & Hbulk & _).
  - intros i Hi. simpl in Hi. apply elem_of_singleton in Hi. subst i.
    exists report. simpl. auto.
  - split; [apply Hdel | exact Hbulk].
Defined.

Lemma updateTodo_completed_hides_witness :
  TodoApp.todos (TodoApp.updateTodo "t9" TodoApp.mark_completed desk) =
    TodoApp.todos desk.
Proof.
  apply (proj1 (updateTodo_completed_hides "t9" desk)).
  intros t [<-|[<-|[<-|[]]]]; discriminate.
Defined.

End MoreOnReference.
